(** * The snippet model of coc.nvim: [src/snippets/snippet.ts]

    A shallow embedding of the class [CocSnippet] and of the placeholder
    views it derives from a parsed TextMate template.  Numbers are [Z]
    (the two sums [adjustPosition] makes of the anchor and its arbitrary
    counts are rounded as JavaScript rounds them),
    strings are [string] (one character per code unit), the mutable object
    is a record threaded through every method, and the collaborators that
    live in other files (the template tree of [./parser], the text document
    of the language-server protocol package, the helpers of [../util]) are
    interfaces the development is parametrised by. *)

From Stdlib Require Import ZArith List String Ascii Bool Lia.
Import ListNotations.
Local Open Scope Z_scope.

Set Implicit Arguments.

(** ** JavaScript values used by the class *)

Module JS.

(** [String.prototype.slice]'s treatment of one bound: a negative bound
    counts from the end of the string, and both are clamped to
    [0 .. len]. *)
Definition relative (len k : Z) : Z :=
  if k <? 0 then Z.max (len + k) 0 else Z.min k len.

(** [s.slice(from, to)]; [to = None] is the one-argument call
    [s.slice(from)]. *)
Definition slice (s : string) (from : Z) (to : option Z) : string :=
  let len := Z.of_nat (String.length s) in
  let f := relative len from in
  let t := match to with Some e => relative len e | None => len end in
  substring (Z.to_nat f) (Z.to_nat (t - f)) s.

(** The largest magnitude up to which every integer is a number of
    JavaScript (an IEEE 754 double): 2^53. *)
Definition maxExact : Z := 9007199254740992.

(** An integer no sum can round away. *)
Definition safe (z : Z) : Prop := Z.abs z <= maxExact.

(** The number nearest to an integer, ties to the even significand: an
    integer of magnitude up to 2^53 is a number itself, a larger one keeps
    its 53 leading bits.  (Numbers are finite: magnitudes stay below
    2^1024.) *)
Definition round (z : Z) : Z :=
  let a := Z.abs z in
  if a <=? maxExact then z
  else
    let ulp := 2 ^ (Z.log2 a - 52) in
    let q := a / ulp in
    let r := a mod ulp in
    let q' :=
      if 2 * r <? ulp then q
      else if ulp <? 2 * r then q + 1
      else if Z.even q then q else q + 1 in
    Z.sgn z * (q' * ulp).

(** [a + b] on two integer numbers: the exact sum, rounded. *)
Definition add (a b : Z) : Z := round (a + b).

(** [arr[k]] for a number [k]: [undefined] outside the array. *)
Definition at_ {A : Type} (arr : list A) (k : Z) : option A :=
  if k <? 0 then None else nth_error arr (Z.to_nat k).

(** [arr.map((x, idx) => f idx x)], with the running position. *)
Fixpoint mapi {A B : Type} (f : nat -> A -> B) (idx : nat) (arr : list A)
  : list B :=
  match arr with
  | [] => []
  | x :: rest => f idx x :: mapi f (S idx) rest
  end.

End JS.

(** ** Types of the language-server protocol *)

Module LSP.

Record Position := mkPosition { line : Z; character : Z }.

Record Range := mkRange { start : Position; end_ : Position }.

Record TextEdit := mkTextEdit { range : Range; newText : string }.

(** [equals] of [../util/object] at two positions: deep equality of the
    two plain objects, that is of both coordinates. *)
Definition equals (a b : Position) : bool :=
  (line a =? line b) && (character a =? character b).

(** Document order on positions. *)
Definition le (a b : Position) : Prop :=
  line a < line b \/ (line a = line b /\ character a <= character b).

(** The text document of the protocol package, as far as the class uses
    it: [TextDocument.create(uri, lang, 0, content).positionAt(offset)]. *)
Class TextDocument := { positionAt : string -> Z -> Position }.

(** The helpers of [../util/position]: [getChangedPosition], the line
    and character delta an edit induces at a position, and
    [rangeInRange], whether the first range lies inside the second. *)
Class PositionUtil := {
  getChangedPosition : Position -> TextEdit -> Position;
  rangeInRange : Range -> Range -> bool
}.

End LSP.

(** ** The template tree, [import * as Snippets from "./parser"] *)

Module Snippets.

(** What [update] reads of one placeholder node [p]: [p.index],
    [p.transform != null], [p.isFinalTabstop], the values of
    [p.choice.options] when [p.choice] is set, and [p.toString()]. *)
Record Placeholder := mkPlaceholder {
  index : Z;
  transform : bool;
  isFinalTabstop : bool;
  choice : option (list string);
  text : string
}.

(** The interface of [TextmateSnippet] the class calls.  A node is named
    by its position in [placeholders]; the two mutating methods return
    the tree they leave behind next to their JavaScript result. *)
Class TextmateSnippet (T : Type) := {
  toString : T -> string;
  placeholders : T -> list Placeholder;
  offset : T -> nat -> Z;
  minIndexNumber : T -> Z;
  maxIndexNumber : T -> Z;
  updatePlaceholder : T -> Z -> string -> T * string
}.

(** [TextmateSnippet.insertSnippet(snippet, id, offset, insertFinal)],
    kept apart because only [CocSnippet.insertSnippet] calls it. *)
Class NestedInsertion (T : Type) := {
  insertSnippet : T -> string -> Z -> Z -> bool -> T * Z
}.

(** The fields of a node other than its text. *)
Definition shape (p : Placeholder) : Z * bool * bool * option (list string) :=
  (index p, transform p, isFinalTabstop p, choice p).

End Snippets.

(** ** Placeholder views *)

(** [interface CocSnippetPlaceholder]; the non-enumerable back reference
    [snippet] is the state the view was read from and is not stored. *)
Record CocSnippetPlaceholder := mkCocSnippetPlaceholder {
  index : Z;
  id : Z;
  line : Z;
  range : LSP.Range;
  value : string;
  isFinalTabstop : bool;
  transform : bool;
  choice : option (list string)
}.

(** The result of a method that recurses on a number: the value it returns,
    or no value within the allowed number of calls. *)
Inductive outcome (A : Type) : Type :=
| Returned (a : A)
| OutOfFuel.

Arguments OutOfFuel {A}.

(** ** The class [CocSnippet] *)

Module CocSnippet.
Section Class.

Context {T : Type} {TM : Snippets.TextmateSnippet T}
        {Doc : LSP.TextDocument}.

(** The mutable fields: the anchor [position], the tree [tmSnippet] and
    the derived list [_placeholders]. *)
Record t := mk {
  position : LSP.Position;
  tmSnippet : T;
  _placeholders : list CocSnippetPlaceholder
}.

(** The body of the [placeholders.map((p, idx) => ...)] of [update]. *)
Definition view (snippet : T) (anchor : LSP.Position) (idx : nat)
           (p : Snippets.Placeholder) : CocSnippetPlaceholder :=
  let offset := Snippets.offset snippet idx in
  let position := LSP.positionAt (Snippets.toString snippet) offset in
  let start :=
    LSP.mkPosition
      (LSP.line anchor + LSP.line position)
      (if LSP.line position =? 0
       then LSP.character anchor + LSP.character position
       else LSP.character position) in
  let value := Snippets.text p in
  {| range :=
       LSP.mkRange start
         (LSP.mkPosition (LSP.line start)
            (LSP.character start + Z.of_nat (String.length value)));
     transform := Snippets.transform p;
     line := LSP.line start;
     id := Z.of_nat idx;
     index := Snippets.index p;
     value := value;
     isFinalTabstop := Snippets.isFinalTabstop p;
     choice :=
       match Snippets.choice p with
       | Some (o :: options) => Some (o :: options)
       | _ => None
       end |}.

(** The list [update] stores. *)
Definition views (snippet : T) (anchor : LSP.Position)
  : list CocSnippetPlaceholder :=
  JS.mapi (view snippet anchor) 0 (Snippets.placeholders snippet).

(** [private update(): void] *)
Definition update (s : t) : t :=
  mk (position s) (tmSnippet s) (views (tmSnippet s) (position s)).

(** The constructor, from the tree [_parser.parse] returned (variables
    already resolved) and the anchor. *)
Definition create (snippet : T) (anchor : LSP.Position) : t :=
  update (mk anchor snippet []).

(** [adjustPosition(characterCount, lineCount)] *)
Definition adjustPosition (s : t) (characterCount lineCount : Z) : t :=
  update
    (mk (LSP.mkPosition (JS.add (LSP.line (position s)) lineCount)
                        (JS.add (LSP.character (position s)) characterCount))
        (tmSnippet s) (_placeholders s)).

(** [toString()] *)
Definition toString (s : t) : string := Snippets.toString (tmSnippet s).

(** [get range()] *)
Definition range_ (s : t) : LSP.Range :=
  let content := toString s in
  let pos := LSP.positionAt content (Z.of_nat (String.length content)) in
  LSP.mkRange (position s)
    (LSP.mkPosition (LSP.line (position s) + LSP.line pos)
                    (LSP.character (position s) + LSP.character pos)).

(** [adjustTextEdit(edit)] *)
Definition adjustTextEdit {PU : LSP.PositionUtil} (s : t)
           (edit : LSP.TextEdit) : t * bool :=
  let start := LSP.start (range_ s) in
  let changed := LSP.getChangedPosition start edit in
  if (LSP.line changed =? 0) && (LSP.character changed =? 0)
  then (s, false)
  else (adjustPosition s (LSP.character changed) (LSP.line changed), true).

(** [get isPlainText()] *)
Definition isPlainText (s : t) : bool :=
  forallb isFinalTabstop (_placeholders s).

(** [getPlaceholderById(id)] *)
Definition getPlaceholderById (s : t) (k : Z) : option CocSnippetPlaceholder :=
  find (fun o => id o =? k) (_placeholders s).

(** [getPlaceholder(index)] *)
Definition getPlaceholder (s : t) (i : Z) : option CocSnippetPlaceholder :=
  let placeholders := filter (fun o => index o =? i) (_placeholders s) in
  let filtered := filter (fun o => negb (transform o)) placeholders in
  match filtered with
  | first :: _ => Some first
  | [] => hd_error placeholders
  end.

(** [get firstPlaceholder()] *)
Definition firstPlaceholder (s : t) : option CocSnippetPlaceholder :=
  getPlaceholder s (Snippets.minIndexNumber (tmSnippet s)).

(** [get lastPlaceholder()] *)
Definition lastPlaceholder (s : t) : option CocSnippetPlaceholder :=
  getPlaceholder s (Snippets.maxIndexNumber (tmSnippet s)).

(** [get finalPlaceholder()] *)
Definition finalPlaceholder (s : t) : option CocSnippetPlaceholder :=
  find isFinalTabstop (_placeholders s).

(** [getPrevPlaceholder(index)]; every call, the first one included,
    takes one unit of [fuel]. *)
Fixpoint getPrevPlaceholder (fuel : nat) (s : t) (i : Z)
  : outcome (option CocSnippetPlaceholder) :=
  match fuel with
  | O => OutOfFuel
  | S fuel' =>
      if i =? 0 then Returned (lastPlaceholder s)
      else match getPlaceholder s (i - 1) with
           | None => getPrevPlaceholder fuel' s (i - 1)
           | Some prev => Returned (Some prev)
           end
  end.

(** [getNextPlaceholder(index)], with the same account of calls. *)
Fixpoint getNextPlaceholder (fuel : nat) (s : t) (i : Z)
  : outcome (option CocSnippetPlaceholder) :=
  match fuel with
  | O => OutOfFuel
  | S fuel' =>
      let max := Snippets.maxIndexNumber (tmSnippet s) in
      if i =? max then Returned (finalPlaceholder s)
      else match getPlaceholder s (i + 1) with
           | None => getNextPlaceholder fuel' s (i + 1)
           | Some next => Returned (Some next)
           end
  end.

(** [getPlaceholderByRange(range)] *)
Definition getPlaceholderByRange {PU : LSP.PositionUtil} (s : t)
           (r : LSP.Range) : option CocSnippetPlaceholder :=
  find (fun o => LSP.rangeInRange r (range o)) (_placeholders s).

(** The flag [insertFinal] as [insertSnippet] computes it. *)
Definition insertFinal (s : t) (placeholder : CocSnippetPlaceholder)
           (at_position : LSP.Position) : bool :=
  match JS.at_ (_placeholders s) (id placeholder + 1) with
  | Some next =>
      if LSP.equals (LSP.start (range next)) at_position then false else true
  | None => true
  end.

(** [insertSnippet(placeholder, snippet, position)] *)
Definition insertSnippet {NI : Snippets.NestedInsertion T} (s : t)
           (placeholder : CocSnippetPlaceholder) (snippet : string)
           (at_position : LSP.Position) : t * Z :=
  let start := LSP.start (range placeholder) in
  let offset := LSP.character at_position - LSP.character start in
  let '(tm, first) :=
    Snippets.insertSnippet (tmSnippet s) snippet (id placeholder) offset
      (insertFinal s placeholder at_position) in
  (update (mk (position s) tm (_placeholders s)), first).

(** [private setPlaceholderValue(id, val)] *)
Definition setPlaceholderValue (s : t) (k : Z) (val : string) : t :=
  let '(tm, _) := Snippets.updatePlaceholder (tmSnippet s) k val in
  update (mk (position s) tm (_placeholders s)).

(** The local [newText] of [updatePlaceholder]. *)
Definition editedText (placeholder : CocSnippetPlaceholder)
           (edit : LSP.TextEdit) : string :=
  let start := LSP.start (LSP.range edit) in
  let end_ := LSP.end_ (LSP.range edit) in
  let pRange := range placeholder in
  let value := value placeholder in
  let endPart :=
    if LSP.character (LSP.end_ pRange) >? LSP.character end_
    then JS.slice value
           (LSP.character end_ - LSP.character (LSP.end_ pRange)) None
    else EmptyString in
  (JS.slice value 0
     (Some (LSP.character start - LSP.character (LSP.start pRange)))
   ++ LSP.newText edit ++ endPart)%string.

(** The [placeholders.forEach(p => ...)] of [updatePlaceholder]: the
    tree is written once per element and [edits] grows by [push]. *)
Fixpoint forEachOther (tm : T) (newText : string)
         (placeholders : list CocSnippetPlaceholder)
         (edits : list LSP.TextEdit) : T * list LSP.TextEdit :=
  match placeholders with
  | [] => (tm, edits)
  | p :: rest =>
      let '(tm', text) := Snippets.updatePlaceholder tm (id p) newText in
      forEachOther tm' newText rest
        (if String.eqb text (value p) then edits
         else edits ++ [LSP.mkTextEdit (range p) text])
  end.

(** [updatePlaceholder(placeholder, edit)] *)
Definition updatePlaceholder (s : t) (placeholder : CocSnippetPlaceholder)
           (edit : LSP.TextEdit) : t * list LSP.TextEdit :=
  let newText := editedText placeholder edit in
  let s1 := setPlaceholderValue s (id placeholder) newText in
  let placeholders :=
    filter (fun o => (index o =? index placeholder)
                     && negb (id o =? id placeholder))
           (_placeholders s1) in
  match placeholders with
  | [] => (s1, [])
  | _ :: _ =>
      let '(tm, edits) := forEachOther (tmSnippet s1) newText placeholders [] in
      (update (mk (position s1) tm (_placeholders s1)), edits)
  end.

End Class.

Arguments t T : clear implicits.

End CocSnippet.

(** ** The collaborators, as the specification describes them *)

(** Modelled from the spec: the text document behind [positionAt] (the
    protocol package is not under src/), which "measures that rendered text
    as a virtual document ..., honoring embedded newlines".  A line ends at
    a line feed, a carriage return, or a carriage return followed by a line
    feed; an offset is clamped to the text and reported as the line it is
    on and its distance from that line's first offset. *)
Module FullTextDocument.

Definition CR : ascii := ascii_of_nat 13.
Definition LF : ascii := ascii_of_nat 10.

Definition isEOL (ch : ascii) : bool := Ascii.eqb ch CR || Ascii.eqb ch LF.

(** The offsets at which lines start, scanning from offset [i]. *)
Fixpoint getLineOffsets (text : list ascii) (i : nat) (isLineStart : bool)
  : list nat :=
  match text with
  | [] => if isLineStart && (0 <? i)%nat then [i] else []
  | ch :: rest =>
      (if isLineStart then [i] else []) ++
      match rest with
      | ch' :: rest' =>
          if Ascii.eqb ch CR && Ascii.eqb ch' LF
          then getLineOffsets rest' (S (S i)) true
          else getLineOffsets rest (S i) (isEOL ch)
      | [] => getLineOffsets rest (S i) (isEOL ch)
      end
  end.

(** The last line start that is not after [offset], with its number. *)
Fixpoint lineAt (lineOffsets : list nat) (offset : nat) (n : nat)
         (found : nat * nat) : nat * nat :=
  match lineOffsets with
  | [] => found
  | o :: rest =>
      if (offset <? o)%nat then found else lineAt rest offset (S n) (n, o)
  end.

Definition positionAt (content : string) (offset : Z) : LSP.Position :=
  let len := Z.of_nat (String.length content) in
  let offset := Z.max (Z.min offset len) 0 in
  match getLineOffsets (list_ascii_of_string content) 0 true with
  | [] => LSP.mkPosition 0 offset
  | o :: rest =>
      let '(n, lineStart) := lineAt (o :: rest) (Z.to_nat offset) 0 (0%nat, o) in
      LSP.mkPosition (Z.of_nat n) (offset - Z.of_nat lineStart)
  end.

#[global] Instance document : LSP.TextDocument := {| LSP.positionAt := positionAt |}.

End FullTextDocument.

(** Modelled from the spec: the helpers of [../util/position], which is not
    under src/.  [getChangedPosition] "computes the position delta the edit
    would induce at the snippet's start": an edit that ends at or before
    the position moves it by the lines the edit adds and, when the edit
    ends on the position's line, by the characters it adds there; any other
    edit moves nothing.  [rangeInRange] holds when the second range "fully
    contains the given range". *)
Module PositionUtil.

Definition comparePosition (a b : LSP.Position) : Z :=
  if LSP.line a >? LSP.line b then 1
  else if (LSP.line a =? LSP.line b) && (LSP.character a >? LSP.character b) then 1
  else if (LSP.line a =? LSP.line b) && (LSP.character a =? LSP.character b) then 0
  else -1.

(** [text.split('\n')] as the number of pieces and the length of the
    last one. *)
Fixpoint splitLines (text : string) (pieces : Z) (lastLength : Z) : Z * Z :=
  match text with
  | EmptyString => (pieces, lastLength)
  | String ch rest =>
      if Ascii.eqb ch FullTextDocument.LF
      then splitLines rest (pieces + 1) 0
      else splitLines rest pieces (lastLength + 1)
  end.

Definition getChangedPosition (start : LSP.Position) (edit : LSP.TextEdit)
  : LSP.Position :=
  let r := LSP.range edit in
  let newText := LSP.newText edit in
  if comparePosition (LSP.end_ r) start <=? 0 then
    let '(lines, lastLength) := splitLines newText 1 0 in
    let lineCount :=
      lines - (LSP.line (LSP.end_ r) - LSP.line (LSP.start r)) - 1 in
    let characterCount :=
      if LSP.line (LSP.end_ r) =? LSP.line start then
        let single :=
          (LSP.line (LSP.start r) =? LSP.line (LSP.end_ r)) && (lineCount =? 0) in
        let removed :=
          if single
          then LSP.character (LSP.end_ r) - LSP.character (LSP.start r)
          else LSP.character (LSP.end_ r) in
        let added :=
          if single then Z.of_nat (String.length newText) else lastLength in
        added - removed
      else 0 in
    LSP.mkPosition lineCount characterCount
  else LSP.mkPosition 0 0.

Definition rangeInRange (r range : LSP.Range) : bool :=
  (comparePosition (LSP.start r) (LSP.start range) >=? 0)
  && (comparePosition (LSP.end_ r) (LSP.end_ range) <=? 0).

#[global] Instance helpers : LSP.PositionUtil :=
  {| LSP.getChangedPosition := getChangedPosition;
     LSP.rangeInRange := rangeInRange |}.

End PositionUtil.

(** Modelled from the spec: a template tree (the parser is not under src/).
    The tree is the template in document order, literal text between
    tabstop occurrences; it "exposes per-node textual rendering, per-node
    offset within the rendered string, the minimum/maximum tabstop index
    present, and operations to overwrite one occurrence's text".  A
    transform occurrence carries its substitution rule and renders a
    written text through it. *)
Module FlatTree.

Inductive Marker : Type :=
| Text (value : string)
| Tabstop (index : Z) (transform : option (string -> string))
          (isFinalTabstop : bool) (choice : option (list string))
          (children : string).

Definition tree := list Marker.

Fixpoint toString (tm : tree) : string :=
  match tm with
  | [] => EmptyString
  | Text value :: rest => (value ++ toString rest)%string
  | Tabstop _ _ _ _ children :: rest => (children ++ toString rest)%string
  end.

Fixpoint placeholders (tm : tree) : list Snippets.Placeholder :=
  match tm with
  | [] => []
  | Text _ :: rest => placeholders rest
  | Tabstop index transform final choice children :: rest =>
      Snippets.mkPlaceholder index
        (match transform with Some _ => true | None => false end)
        final choice children
      :: placeholders rest
  end.

(** The length of the text rendered before the [k]-th occurrence, [-1]
    when there is no such occurrence. *)
Fixpoint offset (tm : tree) (k : nat) : Z :=
  match tm with
  | [] => -1
  | Text value :: rest =>
      let o := offset rest k in
      if o <? 0 then -1 else Z.of_nat (String.length value) + o
  | Tabstop _ _ _ _ children :: rest =>
      match k with
      | O => 0
      | S k' =>
          let o := offset rest k' in
          if o <? 0 then -1 else Z.of_nat (String.length children) + o
      end
  end.

Definition maxIndexNumber (tm : tree) : Z :=
  fold_left (fun curr p => Z.max curr (Snippets.index p)) (placeholders tm) 0.

(** The least index of an occurrence that is not the final tabstop, [0]
    when every occurrence is. *)
Definition minIndexNumber (tm : tree) : Z :=
  match filter (fun p => negb (Snippets.isFinalTabstop p)) (placeholders tm) with
  | [] => 0
  | p :: rest => fold_left (fun curr q => Z.min curr (Snippets.index q)) rest (Snippets.index p)
  end.

(** What the [k]-th occurrence renders once [val] is written to it. *)
Definition resolve (transform : option (string -> string)) (val : string)
  : string :=
  match transform with
  | Some rule => rule val
  | None => val
  end.

(** Overwrite the [k]-th occurrence's text; the result is the text it
    now renders, the empty string when there is no such occurrence. *)
Fixpoint write (tm : tree) (k : nat) (val : string) : tree * string :=
  match tm with
  | [] => ([], EmptyString)
  | Text value :: rest =>
      let '(rest', text) := write rest k val in (Text value :: rest', text)
  | Tabstop index transform final choice children :: rest =>
      match k with
      | O =>
          let text := resolve transform val in
          (Tabstop index transform final choice text :: rest, text)
      | S k' =>
          let '(rest', text) := write rest k' val in
          (Tabstop index transform final choice children :: rest', text)
      end
  end.

Definition updatePlaceholder (tm : tree) (id : Z) (val : string)
  : tree * string :=
  if id <? 0 then (tm, EmptyString) else write tm (Z.to_nat id) val.

#[global] Instance snippet : Snippets.TextmateSnippet tree :=
  {| Snippets.toString := toString;
     Snippets.placeholders := placeholders;
     Snippets.offset := offset;
     Snippets.minIndexNumber := minIndexNumber;
     Snippets.maxIndexNumber := maxIndexNumber;
     Snippets.updatePlaceholder := updatePlaceholder |}.

End FlatTree.

(** Modelled from the spec: a template tree in which a placeholder holds
    other placeholders (the parser is not under src/), as a default text
    such as that of [${1:foo ${2:bar}}] or "inserting a second snippet live
    inside an active placeholder" gives.  Nodes are listed in document
    order, a placeholder before the ones it holds, and a placeholder
    renders all it holds.  Overwriting an occurrence replaces the first
    thing it holds by the new text, or gives it the text when it holds
    nothing, and keeps what follows: one way for a tree to "overwrite one
    occurrence's text" that the interface of the class allows. *)
Module NestedTree.

Inductive Child : Type :=
| Leaf (value : string)
| Inner (index : Z) (isFinalTabstop : bool) (value : string).

Inductive Marker : Type :=
| Text (value : string)
| Placeholder (index : Z) (isFinalTabstop : bool) (children : list Child).

Definition tree := list Marker.

Definition childText (c : Child) : string :=
  match c with
  | Leaf value => value
  | Inner _ _ value => value
  end.

Fixpoint childrenText (children : list Child) : string :=
  match children with
  | [] => EmptyString
  | c :: rest => (childText c ++ childrenText rest)%string
  end.

Fixpoint toString (tm : tree) : string :=
  match tm with
  | [] => EmptyString
  | Text value :: rest => (value ++ toString rest)%string
  | Placeholder _ _ children :: rest =>
      (childrenText children ++ toString rest)%string
  end.

Fixpoint innerPlaceholders (children : list Child)
  : list Snippets.Placeholder :=
  match children with
  | [] => []
  | Leaf _ :: rest => innerPlaceholders rest
  | Inner index final value :: rest =>
      Snippets.mkPlaceholder index false final None value
      :: innerPlaceholders rest
  end.

Fixpoint placeholders (tm : tree) : list Snippets.Placeholder :=
  match tm with
  | [] => []
  | Text _ :: rest => placeholders rest
  | Placeholder index final children :: rest =>
      Snippets.mkPlaceholder index false final None (childrenText children)
      :: innerPlaceholders children ++ placeholders rest
  end.

(** The offsets of the placeholders held, the first thing held being at
    [pos]. *)
Fixpoint innerOffsets (pos : Z) (children : list Child) : list Z :=
  match children with
  | [] => []
  | Leaf value :: rest =>
      innerOffsets (pos + Z.of_nat (String.length value)) rest
  | Inner _ _ value :: rest =>
      pos :: innerOffsets (pos + Z.of_nat (String.length value)) rest
  end.

(** The offsets of the placeholder nodes, in their order, the tree being
    rendered from [pos] on. *)
Fixpoint offsets (pos : Z) (tm : tree) : list Z :=
  match tm with
  | [] => []
  | Text value :: rest => offsets (pos + Z.of_nat (String.length value)) rest
  | Placeholder _ _ children :: rest =>
      pos :: innerOffsets pos children
      ++ offsets (pos + Z.of_nat (String.length (childrenText children))) rest
  end.

Definition offset (tm : tree) (k : nat) : Z := nth k (offsets 0 tm) (-1).

Definition maxIndexNumber (tm : tree) : Z :=
  fold_left (fun curr p => Z.max curr (Snippets.index p)) (placeholders tm) 0.

Definition minIndexNumber (tm : tree) : Z :=
  match filter (fun p => negb (Snippets.isFinalTabstop p)) (placeholders tm) with
  | [] => 0
  | p :: rest =>
      fold_left (fun curr q => Z.min curr (Snippets.index q)) rest
        (Snippets.index p)
  end.

Definition overwrite (children : list Child) (val : string) : list Child :=
  match children with
  | [] => [Leaf val]
  | _ :: rest => Leaf val :: rest
  end.

(** Give the [k]-th placeholder held the text [val]. *)
Fixpoint writeInner (children : list Child) (k : nat) (val : string)
  : list Child :=
  match children with
  | [] => []
  | Leaf value :: rest => Leaf value :: writeInner rest k val
  | Inner index final value :: rest =>
      match k with
      | O => Inner index final val :: rest
      | S k' => Inner index final value :: writeInner rest k' val
      end
  end.

Fixpoint write (tm : tree) (k : nat) (val : string) : tree :=
  match tm with
  | [] => []
  | Text value :: rest => Text value :: write rest k val
  | Placeholder index final children :: rest =>
      match k with
      | O => Placeholder index final (overwrite children val) :: rest
      | S k' =>
          let held := List.length (innerPlaceholders children) in
          if (k' <? held)%nat
          then Placeholder index final (writeInner children k' val) :: rest
          else Placeholder index final children :: write rest (k' - held) val
      end
  end.

Definition updatePlaceholder (tm : tree) (id : Z) (val : string)
  : tree * string :=
  if id <? 0 then (tm, EmptyString) else (write tm (Z.to_nat id) val, val).

#[global] Instance snippet : Snippets.TextmateSnippet tree :=
  {| Snippets.toString := toString;
     Snippets.placeholders := placeholders;
     Snippets.offset := offset;
     Snippets.minIndexNumber := minIndexNumber;
     Snippets.maxIndexNumber := maxIndexNumber;
     Snippets.updatePlaceholder := updatePlaceholder |}.

End NestedTree.

Unset Implicit Arguments.

(** ** Vocabulary of the properties *)

Section Vocabulary.

Context {T : Type} {TM : Snippets.TextmateSnippet T}
        {Doc : LSP.TextDocument}.

(** The stored list is the one [update] derives from the tree and the
    anchor, which is how every method leaves the object. *)
Definition derived (s : CocSnippet.t T) : Prop :=
  CocSnippet._placeholders s
  = CocSnippet.views (CocSnippet.tmSnippet s) (CocSnippet.position s).

(** The range of the view at list position [i], read off the tree. *)
Definition range_from_offset (s : CocSnippet.t T) (i : nat)
           (v : CocSnippetPlaceholder) : Prop :=
  let tm := CocSnippet.tmSnippet s in
  let anchor := CocSnippet.position s in
  let at_offset := LSP.positionAt (Snippets.toString tm) (Snippets.offset tm i) in
  let start := LSP.start (range v) in
  let end_ := LSP.end_ (range v) in
  LSP.line start = LSP.line anchor + LSP.line at_offset
  /\ (LSP.line at_offset = 0 ->
      LSP.character start = LSP.character anchor + LSP.character at_offset)
  /\ (LSP.line at_offset <> 0 ->
      LSP.character start = LSP.character at_offset)
  /\ LSP.line end_ = LSP.line start
  /\ LSP.character end_
     = LSP.character start + Z.of_nat (String.length (value v))
  /\ LSP.le start end_.

(** The list holds one view per placeholder node of the tree, in the
    tree's order; the view at position [i] has id [i], the text of the
    [i]-th node as its value, and the range read off the tree. *)
Definition ranges_from_offsets (s : CocSnippet.t T) : Prop :=
  List.length (CocSnippet._placeholders s)
  = List.length (Snippets.placeholders (CocSnippet.tmSnippet s))
  /\ forall i v,
       nth_error (CocSnippet._placeholders s) i = Some v ->
       range_from_offset s i v
       /\ id v = Z.of_nat i
       /\ exists p,
            nth_error (Snippets.placeholders (CocSnippet.tmSnippet s)) i = Some p
            /\ value v = Snippets.text p.

(** A position, a range, whose coordinates no sum rounds away. *)
Definition safe_position (p : LSP.Position) : Prop :=
  JS.safe (LSP.line p) /\ JS.safe (LSP.character p).

Definition safe_range (r : LSP.Range) : Prop :=
  safe_position (LSP.start r) /\ safe_position (LSP.end_ r).

(** A position moved by [dLine] lines and [dChar] characters. *)
Definition moved (p : LSP.Position) (dChar dLine : Z) : LSP.Position :=
  LSP.mkPosition (LSP.line p + dLine) (LSP.character p + dChar).

(** What a view says of the template's content, as opposed to where the
    snippet sits in the buffer. *)
Definition content (v : CocSnippetPlaceholder)
  : Z * Z * string * bool * bool * option (list string) :=
  (index v, id v, value v, isFinalTabstop v, transform v, choice v).

(** An edit confined to a placeholder's range, which [update] puts on one
    line. *)
Definition confined (edit : LSP.TextEdit) (placeholder : CocSnippetPlaceholder)
  : Prop :=
  let r := LSP.range edit in
  let pRange := range placeholder in
  LSP.line (LSP.start r) = LSP.line (LSP.start pRange)
  /\ LSP.line (LSP.end_ r) = LSP.line (LSP.start pRange)
  /\ LSP.character (LSP.start pRange) <= LSP.character (LSP.start r)
  /\ LSP.character (LSP.start r) <= LSP.character (LSP.end_ r)
  /\ LSP.character (LSP.end_ r) <= LSP.character (LSP.end_ pRange).

(** Prefix + text + suffix: [value] with its characters from [a] up to
    [b] replaced by [text]. *)
Definition splice (value : string) (a b : nat) (text : string) : string :=
  (substring 0 a value ++ text
   ++ substring b (String.length value - b) value)%string.

(** The other occurrences [updatePlaceholder] visits: those of the edited
    index in the list re-derived after the edited occurrence was written. *)
Definition others (s1 : CocSnippet.t T) (placeholder : CocSnippetPlaceholder)
  : list CocSnippetPlaceholder :=
  filter (fun o => (index o =? index placeholder)
                   && negb (id o =? id placeholder))
         (CocSnippet._placeholders s1).

(** The texts the tree returns when [newText] is written to the listed
    occurrences in turn. *)
Fixpoint recomputed (tm : T) (newText : string)
         (placeholders : list CocSnippetPlaceholder) : list string :=
  match placeholders with
  | [] => []
  | p :: rest =>
      let '(tm', text) := Snippets.updatePlaceholder tm (id p) newText in
      text :: recomputed tm' newText rest
  end.

(** The synthetic edit, if any, for an occurrence and its recomputed text. *)
Definition synthetic (p : CocSnippetPlaceholder) (text : string)
  : list LSP.TextEdit :=
  if String.eqb text (value p) then [] else [LSP.mkTextEdit (range p) text].

(** [updatePlaceholder] from the point where the occurrence's new text is
    known: the text is written under the occurrence's id, then to the
    others in turn, and the list is derived from the tree this leaves. *)
Definition applyText (s : CocSnippet.t T) (p : CocSnippetPlaceholder)
           (newText : string) : CocSnippet.t T * list LSP.TextEdit :=
  let s1 := CocSnippet.setPlaceholderValue s (id p) newText in
  let r := CocSnippet.forEachOther (CocSnippet.tmSnippet s1) newText
             (others s1 p) [] in
  (CocSnippet.create (fst r) (CocSnippet.position s), snd r).

(** A node with another text. *)
Definition withText (p : Snippets.Placeholder) (text : string)
  : Snippets.Placeholder :=
  Snippets.mkPlaceholder (Snippets.index p) (Snippets.transform p)
    (Snippets.isFinalTabstop p) (Snippets.choice p) text.

(** [arr] with its [k]-th element replaced by [x]. *)
Fixpoint replaceAt {A : Type} (arr : list A) (k : nat) (x : A) : list A :=
  match arr, k with
  | [], _ => []
  | _ :: rest, O => x :: rest
  | y :: rest, S k' => y :: replaceAt rest k' x
  end.

(** Modelled from the spec: what the spec says of the template tree (the
    parser is not under src/), "per-node textual rendering, per-node offset
    within the rendered string" and an operation "to overwrite one
    occurrence's text", as a condition on a family of trees.  In a tree of
    the family a node's text stands in the rendered string at the node's
    offset; overwriting an occurrence gives a tree of the family again,
    whose placeholder nodes are the old ones except that the occurrence
    written now renders the text the operation returns, which is the
    written text itself unless the occurrence is a transform. *)
Record OverwritesInPlace (family : T -> Prop) : Prop := {
  family_rendered :
    forall tm i p,
      family tm ->
      nth_error (Snippets.placeholders tm) i = Some p ->
      0 <= Snippets.offset tm i
      /\ substring (Z.to_nat (Snippets.offset tm i))
                   (String.length (Snippets.text p)) (Snippets.toString tm)
         = Snippets.text p;
  family_written :
    forall tm i p val,
      family tm ->
      nth_error (Snippets.placeholders tm) i = Some p ->
      Snippets.placeholders
        (fst (Snippets.updatePlaceholder tm (Z.of_nat i) val))
      = replaceAt (Snippets.placeholders tm) i
          (withText p (snd (Snippets.updatePlaceholder tm (Z.of_nat i) val)));
  family_verbatim :
    forall tm i p val,
      family tm ->
      nth_error (Snippets.placeholders tm) i = Some p ->
      Snippets.transform p = false ->
      snd (Snippets.updatePlaceholder tm (Z.of_nat i) val) = val;
  family_closed :
    forall tm i p val,
      family tm ->
      nth_error (Snippets.placeholders tm) i = Some p ->
      family (fst (Snippets.updatePlaceholder tm (Z.of_nat i) val))
}.

End Vocabulary.

(** ** Example templates *)

Module Examples.

Local Open Scope string_scope.

(** [foo(${1:bar}, ${2:baz})$0] *)
Definition call : FlatTree.tree :=
  [FlatTree.Text "foo("; FlatTree.Tabstop 1 None false None "bar";
   FlatTree.Text ", "; FlatTree.Tabstop 2 None false None "baz";
   FlatTree.Text ")"; FlatTree.Tabstop 0 None true None EmptyString].

(** [$1 and ${1/.*/[&]/}$0], the rule of the transform as a function. *)
Definition mirrored : FlatTree.tree :=
  [FlatTree.Tabstop 1 None false None EmptyString;
   FlatTree.Text " and ";
   FlatTree.Tabstop 1 (Some (fun s => "[" ++ s ++ "]")) false None EmptyString;
   FlatTree.Tabstop 0 None true None EmptyString].

(** [${1:key}: ${3:value}$0], numbered sparsely. *)
Definition sparse : FlatTree.tree :=
  [FlatTree.Tabstop 1 None false None "key"; FlatTree.Text ": ";
   FlatTree.Tabstop 3 None false None "value";
   FlatTree.Tabstop 0 None true None EmptyString].

(** [${1:a}${2:b}$0], two placeholders with no text between them. *)
Definition adjacent : FlatTree.tree :=
  [FlatTree.Tabstop 1 None false None "a";
   FlatTree.Tabstop 2 None false None "b";
   FlatTree.Tabstop 0 None true None EmptyString].

(** [if (${1:cond}) {] and, on the next line, two spaces, [${2:body}$0]. *)
Definition block : FlatTree.tree :=
  [FlatTree.Text "if ("; FlatTree.Tabstop 1 None false None "cond";
   FlatTree.Text (") {" ++ String FullTextDocument.LF "  ");
   FlatTree.Tabstop 2 None false None "body";
   FlatTree.Tabstop 0 None true None EmptyString].

(** [${1:foo ${2:bar}}$0], one placeholder inside another. *)
Definition nested : NestedTree.tree :=
  [NestedTree.Placeholder 1 false
     [NestedTree.Leaf "foo "; NestedTree.Inner 2 false "bar"];
   NestedTree.Placeholder 0 true []].

Definition origin : LSP.Position := LSP.mkPosition 0 0.

Definition new (tm : FlatTree.tree) (anchor : LSP.Position)
  : CocSnippet.t FlatTree.tree :=
  CocSnippet.create tm anchor.

(** The view [update] derives at list position [i], if any. *)
Definition viewAt (s : CocSnippet.t FlatTree.tree) (i : nat)
  : option CocSnippetPlaceholder :=
  nth_error (CocSnippet._placeholders s) i.

End Examples.

(** ** Arrays and strings *)

Lemma mapi_nth_error {A B : Type} (f : nat -> A -> B) (arr : list A) :
  forall k i,
    nth_error (JS.mapi f k arr) i
    = option_map (f (k + i)%nat) (nth_error arr i).
Proof.
  induction arr as [|x rest IH]; intros k i.
  - destruct i; reflexivity.
  - destruct i as [|i]; simpl.
    + now rewrite Nat.add_0_r.
    + rewrite IH. now replace (S k + i)%nat with (k + S i)%nat by lia.
Qed.

Lemma mapi_In_id {A : Type} (f : nat -> A -> CocSnippetPlaceholder) :
  (forall i x, id (f i x) = Z.of_nat i) ->
  forall arr k w, In w (JS.mapi f k arr) -> Z.of_nat k <= id w.
Proof.
  intro Hid. induction arr as [|x rest IH]; intros k w Hw; simpl in Hw.
  - contradiction.
  - destruct Hw as [<-|Hw].
    + rewrite Hid. lia.
    + apply IH in Hw. lia.
Qed.

Lemma mapi_map {A B C : Type} (g : B -> C) (f f' : nat -> A -> B)
      (arr : list A) :
  (forall i x, g (f i x) = g (f' i x)) ->
  forall k, map g (JS.mapi f k arr) = map g (JS.mapi f' k arr).
Proof.
  intro Hg. induction arr as [|x rest IH]; intro k; simpl; [reflexivity|].
  now rewrite Hg, IH.
Qed.

(** ** What every method leaves behind *)

Section Derivation.

Context {T : Type} {TM : Snippets.TextmateSnippet T}
        {Doc : LSP.TextDocument}.

Lemma views_nth_error (tm : T) (anchor : LSP.Position) (i : nat) :
  nth_error (CocSnippet.views tm anchor) i
  = option_map (CocSnippet.view tm anchor i)
               (nth_error (Snippets.placeholders tm) i).
Proof. unfold CocSnippet.views. now rewrite mapi_nth_error. Qed.

Lemma create_derived (tm : T) (anchor : LSP.Position) :
  derived (CocSnippet.create tm anchor).
Proof. reflexivity. Qed.

(** An object whose list is the derived one is the object the constructor
    builds from its tree and anchor. *)
Lemma derived_create (s : CocSnippet.t T) :
  derived s ->
  s = CocSnippet.create (CocSnippet.tmSnippet s) (CocSnippet.position s).
Proof.
  destruct s as [anchor tm vs]. unfold derived. simpl. intros ->. reflexivity.
Qed.

Lemma adjustPosition_derived (s : CocSnippet.t T) (dc dl : Z) :
  derived (CocSnippet.adjustPosition s dc dl).
Proof. reflexivity. Qed.

Lemma setPlaceholderValue_create (s : CocSnippet.t T) (k : Z) (val : string) :
  CocSnippet.setPlaceholderValue s k val
  = CocSnippet.create
      (fst (Snippets.updatePlaceholder (CocSnippet.tmSnippet s) k val))
      (CocSnippet.position s).
Proof.
  unfold CocSnippet.setPlaceholderValue.
  destruct (Snippets.updatePlaceholder (CocSnippet.tmSnippet s) k val).
  reflexivity.
Qed.

Lemma forEachOther_recomputed (newText : string)
      (ps : list CocSnippetPlaceholder) :
  forall (tm : T) (edits : list LSP.TextEdit),
    snd (CocSnippet.forEachOther tm newText ps edits)
    = edits ++ flat_map (fun '(p, text) => synthetic p text)
                        (combine ps (recomputed tm newText ps)).
Proof.
  induction ps as [|p rest IH]; intros tm edits; simpl.
  - now rewrite app_nil_r.
  - destruct (Snippets.updatePlaceholder tm (id p) newText) as [tm' text].
    rewrite IH. simpl. unfold synthetic at 2.
    destruct (String.eqb text (value p)); simpl.
    + reflexivity.
    + now rewrite <- app_assoc.
Qed.

Lemma recomputed_length (newText : string) (ps : list CocSnippetPlaceholder) :
  forall tm : T, List.length (recomputed tm newText ps) = List.length ps.
Proof.
  induction ps as [|p rest IH]; intro tm; simpl; [reflexivity|].
  destruct (Snippets.updatePlaceholder tm (id p) newText) as [tm' text].
  simpl. now rewrite IH.
Qed.

(** [updatePlaceholder] in one piece: the edited occurrence is written,
    then the others in turn, and the list is derived from the last tree. *)
Lemma updatePlaceholder_create (s : CocSnippet.t T)
      (p : CocSnippetPlaceholder) (edit : LSP.TextEdit) :
  CocSnippet.updatePlaceholder s p edit
  = applyText s p (CocSnippet.editedText p edit).
Proof.
  unfold applyText.
  set (newText := CocSnippet.editedText p edit).
  set (s1 := CocSnippet.setPlaceholderValue s (id p) newText).
  set (r := CocSnippet.forEachOther (CocSnippet.tmSnippet s1) newText
              (others s1 p) []).
  unfold CocSnippet.updatePlaceholder.
  fold newText. fold s1. fold (others s1 p).
  assert (Hs1 : s1 = CocSnippet.create (CocSnippet.tmSnippet s1)
                       (CocSnippet.position s)).
  { unfold s1. rewrite setPlaceholderValue_create. reflexivity. }
  subst r. destruct (others s1 p) as [|o rest] eqn:Ho.
  - simpl. now rewrite <- Hs1.
  - destruct (CocSnippet.forEachOther (CocSnippet.tmSnippet s1) newText
                (o :: rest) []) as [tm edits].
    simpl. f_equal. unfold s1. rewrite setPlaceholderValue_create. reflexivity.
Qed.

Lemma updatePlaceholder_derived (s : CocSnippet.t T)
      (p : CocSnippetPlaceholder) (edit : LSP.TextEdit) :
  derived (fst (CocSnippet.updatePlaceholder s p edit)).
Proof. rewrite updatePlaceholder_create. reflexivity. Qed.

Lemma insertSnippet_create {NI : Snippets.NestedInsertion T}
      (s : CocSnippet.t T) (p : CocSnippetPlaceholder) (snippet : string)
      (at_position : LSP.Position) :
  let r := Snippets.insertSnippet (CocSnippet.tmSnippet s) snippet (id p)
             (LSP.character at_position
              - LSP.character (LSP.start (range p)))
             (CocSnippet.insertFinal s p at_position) in
  CocSnippet.insertSnippet s p snippet at_position
  = (CocSnippet.create (fst r) (CocSnippet.position s), snd r).
Proof.
  intro r. subst r. unfold CocSnippet.insertSnippet.
  destruct (Snippets.insertSnippet _ _ _ _ _). reflexivity.
Qed.

Lemma views_count (tm : T) (anchor : LSP.Position) :
  List.length (CocSnippet.views tm anchor)
  = List.length (Snippets.placeholders tm).
Proof.
  unfold CocSnippet.views. generalize 0%nat.
  induction (Snippets.placeholders tm) as [|p rest IH]; intro k; simpl;
    [reflexivity|].
  now rewrite IH.
Qed.

(** A derived list has one view per node, with the ranges read off the
    tree. *)
Lemma derived_ranges (s : CocSnippet.t T) :
  derived s -> ranges_from_offsets s.
Proof.
  intro Hs. split.
  { rewrite Hs. apply views_count. }
  intros i v Hv. rewrite Hs, views_nth_error in Hv.
  destruct (nth_error (Snippets.placeholders (CocSnippet.tmSnippet s)) i)
    as [p|] eqn:Hp; [|discriminate].
  simpl in Hv. injection Hv as <-.
  split; [|split; [reflexivity|exists p; split; reflexivity]].
  unfold range_from_offset, CocSnippet.view. simpl.
  repeat split.
  - intros ->. reflexivity.
  - intro Hne. destruct (Z.eqb_spec (LSP.line (LSP.positionAt
      (Snippets.toString (CocSnippet.tmSnippet s))
      (Snippets.offset (CocSnippet.tmSnippet s) i))) 0); [contradiction|reflexivity].
  - right. simpl. split; [reflexivity|lia].
Qed.

Lemma find_id_mapi {A : Type} (f : nat -> A -> CocSnippetPlaceholder) (k : Z) :
  (forall i x, id (f i x) = Z.of_nat i) ->
  forall arr base,
    find (fun o => id o =? k) (JS.mapi f base arr)
    = if k <? Z.of_nat base then None
      else nth_error (JS.mapi f base arr) (Z.to_nat k - base).
Proof.
  intro Hid. induction arr as [|x rest IH]; intro base; simpl.
  - destruct (k <? Z.of_nat base); [reflexivity|].
    now destruct (Z.to_nat k - base)%nat.
  - rewrite Hid, IH.
    destruct (Z.eqb_spec (Z.of_nat base) k) as [<-|Hne].
    + destruct (Z.ltb_spec (Z.of_nat base) (Z.of_nat base)); [lia|].
      rewrite Nat2Z.id, Nat.sub_diag. reflexivity.
    + destruct (Z.ltb_spec k (Z.of_nat base)),
               (Z.ltb_spec k (Z.of_nat (S base))); try lia; try reflexivity.
      replace (Z.to_nat k - base)%nat with (S (Z.to_nat k - S base)) by lia.
      reflexivity.
Qed.

(** In a derived list the view with id [k] is the one at position [k]. *)
Lemma derived_getPlaceholderById (s : CocSnippet.t T) (k : Z) :
  derived s ->
  CocSnippet.getPlaceholderById s k = JS.at_ (CocSnippet._placeholders s) k.
Proof.
  intro Hs. unfold CocSnippet.getPlaceholderById. rewrite Hs.
  unfold CocSnippet.views, JS.at_.
  rewrite find_id_mapi by reflexivity.
  simpl. now rewrite Nat.sub_0_r.
Qed.

End Derivation.

(** ** Navigation *)

Section Navigation.

Context {T : Type} {TM : Snippets.TextmateSnippet T}
        {Doc : LSP.TextDocument}.

Lemma getPrevPlaceholder_returns (s : CocSnippet.t T) :
  forall (n : nat) (i : Z),
    0 <= i <= Z.of_nat n ->
    exists r, forall fuel,
      (n < fuel)%nat -> CocSnippet.getPrevPlaceholder fuel s i = Returned r.
Proof.
  induction n as [|n IH]; intros i Hi.
  - assert (i = 0) as -> by lia.
    exists (CocSnippet.lastPlaceholder s). intros [|fuel] Hf; [lia|reflexivity].
  - destruct (Z.eqb_spec i 0) as [->|Hne].
    + exists (CocSnippet.lastPlaceholder s).
      intros [|fuel] Hf; [lia|reflexivity].
    + destruct (CocSnippet.getPlaceholder s (i - 1)) as [prev|] eqn:Hprev.
      * exists (Some prev). intros [|fuel] Hf; [lia|]. simpl.
        destruct (Z.eqb_spec i 0); [contradiction|]. now rewrite Hprev.
      * destruct (IH (i - 1)) as [r Hr]; [lia|].
        exists r. intros [|fuel] Hf; [lia|]. simpl.
        destruct (Z.eqb_spec i 0); [contradiction|]. rewrite Hprev.
        apply Hr. lia.
Qed.

Lemma getNextPlaceholder_returns (s : CocSnippet.t T) :
  forall (n : nat) (i : Z),
    0 <= Snippets.maxIndexNumber (CocSnippet.tmSnippet s) - i <= Z.of_nat n ->
    exists r, forall fuel,
      (n < fuel)%nat -> CocSnippet.getNextPlaceholder fuel s i = Returned r.
Proof.
  induction n as [|n IH]; intros i Hi.
  - assert (i = Snippets.maxIndexNumber (CocSnippet.tmSnippet s)) as -> by lia.
    exists (CocSnippet.finalPlaceholder s).
    intros [|fuel] Hf; [lia|]. simpl. now rewrite Z.eqb_refl.
  - destruct (Z.eqb_spec i (Snippets.maxIndexNumber (CocSnippet.tmSnippet s)))
      as [->|Hne].
    + exists (CocSnippet.finalPlaceholder s).
      intros [|fuel] Hf; [lia|]. simpl. now rewrite Z.eqb_refl.
    + destruct (CocSnippet.getPlaceholder s (i + 1)) as [next|] eqn:Hnext.
      * exists (Some next). intros [|fuel] Hf; [lia|]. simpl.
        destruct (Z.eqb_spec i (Snippets.maxIndexNumber (CocSnippet.tmSnippet s)));
          [contradiction|]. now rewrite Hnext.
      * destruct (IH (i + 1)) as [r Hr]; [lia|].
        exists r. intros [|fuel] Hf; [lia|]. simpl.
        destruct (Z.eqb_spec i (Snippets.maxIndexNumber (CocSnippet.tmSnippet s)));
          [contradiction|]. rewrite Hnext. apply Hr. lia.
Qed.

(** C1, as the code has it: [getPrevPlaceholder(0)] returns
    [lastPlaceholder], the occurrence [getPlaceholder] prefers at the
    tree's maximum tabstop index, whatever its [isFinalTabstop] flag;
    [getNextPlaceholder] at the maximum index returns [finalPlaceholder],
    the first view of the list whose [isFinalTabstop] flag is true.  One
    call is enough for either. *)
Theorem navigation_at_the_boundaries (s : CocSnippet.t T) (fuel : nat) :
  CocSnippet.getPrevPlaceholder (S fuel) s 0
  = Returned (CocSnippet.getPlaceholder s
                (Snippets.maxIndexNumber (CocSnippet.tmSnippet s)))
  /\ CocSnippet.getNextPlaceholder (S fuel) s
       (Snippets.maxIndexNumber (CocSnippet.tmSnippet s))
     = Returned (find isFinalTabstop (CocSnippet._placeholders s))
  /\ (forall v, find isFinalTabstop (CocSnippet._placeholders s) = Some v ->
                isFinalTabstop v = true)
  /\ (forall v, CocSnippet.getPlaceholder s
                  (Snippets.maxIndexNumber (CocSnippet.tmSnippet s)) = Some v ->
                index v = Snippets.maxIndexNumber (CocSnippet.tmSnippet s)).
Proof.
  repeat split.
  - simpl. now rewrite Z.eqb_refl.
  - intros v Hv. now apply find_some in Hv.
  - intros v. unfold CocSnippet.getPlaceholder.
    set (m := Snippets.maxIndexNumber (CocSnippet.tmSnippet s)).
    set (l := filter (fun o => index o =? m) (CocSnippet._placeholders s)).
    assert (Hin : forall x, In x l -> index x = m).
    { intros x Hx. apply filter_In in Hx. now apply Z.eqb_eq. }
    destruct (filter (fun o => negb (transform o)) l) as [|first rest] eqn:Hf.
    + destruct l as [|x l']; [discriminate|]. simpl. intros [= <-].
      apply Hin. now left.
    + intros [= <-]. apply Hin.
      assert (In first (filter (fun o => negb (transform o)) l))
        by (rewrite Hf; now left).
      now apply filter_In in H.
Qed.

(** C7: for a tabstop index between 0 and the tree's maximum index, both
    methods return: [getPrevPlaceholder] within [index + 1] calls and
    [getNextPlaceholder] within [max - index + 1] calls, the first call
    included, whichever indices in between have no occurrence; more calls
    allowed change nothing. *)
Theorem navigation_returns_within_bounds (s : CocSnippet.t T) (i : Z) :
  0 <= i <= Snippets.maxIndexNumber (CocSnippet.tmSnippet s) ->
  (exists r, forall fuel,
      (Z.to_nat i < fuel)%nat ->
      CocSnippet.getPrevPlaceholder fuel s i = Returned r)
  /\ (exists r, forall fuel,
         (Z.to_nat (Snippets.maxIndexNumber (CocSnippet.tmSnippet s) - i)
          < fuel)%nat ->
         CocSnippet.getNextPlaceholder fuel s i = Returned r).
Proof.
  intro Hi. split.
  - apply getPrevPlaceholder_returns. lia.
  - apply getNextPlaceholder_returns. lia.
Qed.

End Navigation.

(** C1 does not hold as worded: in [foo(${1:bar}, ${2:baz})$0] the
    call [getPrevPlaceholder(0)] returns the occurrence of index 2, whose
    [isFinalTabstop] flag is false, not the final tabstop
    [getNextPlaceholder(2)] returns. *)
Lemma getPrevPlaceholder_zero_is_not_final :
  CocSnippet.getPrevPlaceholder 1 (Examples.new Examples.call Examples.origin) 0
  = Returned (Examples.viewAt (Examples.new Examples.call Examples.origin) 1)
  /\ option_map isFinalTabstop
       (Examples.viewAt (Examples.new Examples.call Examples.origin) 1)
     = Some false
  /\ CocSnippet.getNextPlaceholder 1
       (Examples.new Examples.call Examples.origin) 2
     = Returned (Examples.viewAt (Examples.new Examples.call Examples.origin) 2)
  /\ option_map isFinalTabstop
       (Examples.viewAt (Examples.new Examples.call Examples.origin) 2)
     = Some true
  /\ CocSnippet.getPrevPlaceholder 1
       (Examples.new Examples.call Examples.origin) 0
     <> CocSnippet.getNextPlaceholder 1
          (Examples.new Examples.call Examples.origin) 2.
Proof.
  repeat split; try reflexivity. vm_compute. discriminate.
Qed.

(** In [${1:key}: ${3:value}$0] no occurrence has index 2: stepping back
    from 3 passes it and stops at index 1, stepping on from 1 passes it and
    stops at index 3. *)
Example sparse_steps :
  CocSnippet.getPrevPlaceholder 4 (Examples.new Examples.sparse Examples.origin) 3
  = Returned (Examples.viewAt (Examples.new Examples.sparse Examples.origin) 0)
  /\ CocSnippet.getNextPlaceholder 3
       (Examples.new Examples.sparse Examples.origin) 1
     = Returned (Examples.viewAt (Examples.new Examples.sparse Examples.origin) 1).
Proof. split; reflexivity. Qed.

Lemma navigation_returns_within_bounds_witness :
  0 <= 3 <= Snippets.maxIndexNumber
              (CocSnippet.tmSnippet (Examples.new Examples.sparse Examples.origin))
  /\ (exists r, forall fuel,
         (Z.to_nat 3 < fuel)%nat ->
         CocSnippet.getPrevPlaceholder fuel
           (Examples.new Examples.sparse Examples.origin) 3 = Returned r)
  /\ (exists r, forall fuel,
         (Z.to_nat
            (Snippets.maxIndexNumber
               (CocSnippet.tmSnippet
                  (Examples.new Examples.sparse Examples.origin)) - 3)
          < fuel)%nat ->
         CocSnippet.getNextPlaceholder fuel
           (Examples.new Examples.sparse Examples.origin) 3 = Returned r).
Proof.
  split.
  - vm_compute. split; discriminate.
  - apply (navigation_returns_within_bounds
             (Examples.new Examples.sparse Examples.origin) 3).
    vm_compute. split; discriminate.
Defined.

(** ** Sums of numbers *)

Lemma round_safe (z : Z) : JS.safe z -> JS.round z = z.
Proof.
  unfold JS.safe, JS.round. intro Hz.
  destruct (Z.leb_spec (Z.abs z) JS.maxExact); [reflexivity|lia].
Qed.

Lemma add_safe (a b : Z) : JS.safe (a + b) -> JS.add a b = a + b.
Proof. apply round_safe. Qed.

(** ** Moving the anchor *)

Section Anchor.

Context {T : Type} {TM : Snippets.TextmateSnippet T}
        {Doc : LSP.TextDocument}.

Lemma adjustTextEdit_cases {PU : LSP.PositionUtil}
      (s : CocSnippet.t T) (edit : LSP.TextEdit) :
  CocSnippet.adjustTextEdit s edit = (s, false)
  \/ CocSnippet.adjustTextEdit s edit
     = (CocSnippet.adjustPosition s
          (LSP.character (LSP.getChangedPosition (CocSnippet.position s) edit))
          (LSP.line (LSP.getChangedPosition (CocSnippet.position s) edit)),
        true).
Proof.
  unfold CocSnippet.adjustTextEdit. simpl.
  destruct ((LSP.line (LSP.getChangedPosition (CocSnippet.position s) edit) =? 0)
            && (LSP.character
                  (LSP.getChangedPosition (CocSnippet.position s) edit) =? 0));
    [now left|now right].
Qed.


(** C8, as the code has it: on an object whose list is the derived one,
    and for counts with which neither the anchor's line and character nor
    the shifted [line + dl] and [character + dc] exceed 2^53 in magnitude,
    so that the sums are exact, [adjustPosition(dc, dl)] followed by
    [adjustPosition(-dc, -dl)] gives back the object as it was: the
    anchor, and with it every view's id, range and value. *)
Theorem adjustPosition_round_trip (s : CocSnippet.t T) (dc dl : Z) :
  derived s ->
  JS.safe (LSP.line (CocSnippet.position s)) ->
  JS.safe (LSP.character (CocSnippet.position s)) ->
  JS.safe (LSP.line (CocSnippet.position s) + dl) ->
  JS.safe (LSP.character (CocSnippet.position s) + dc) ->
  CocSnippet.adjustPosition (CocSnippet.adjustPosition s dc dl) (- dc) (- dl) = s
  /\ CocSnippet.position
       (CocSnippet.adjustPosition (CocSnippet.adjustPosition s dc dl) (- dc) (- dl))
     = CocSnippet.position s
  /\ map (fun v => (id v, range v, value v))
         (CocSnippet._placeholders
            (CocSnippet.adjustPosition (CocSnippet.adjustPosition s dc dl)
               (- dc) (- dl)))
     = map (fun v => (id v, range v, value v)) (CocSnippet._placeholders s).
Proof.
  intros Hs Hl Hc Hl' Hc'.
  assert (Heq : CocSnippet.adjustPosition (CocSnippet.adjustPosition s dc dl)
                  (- dc) (- dl) = s).
  { destruct s as [[l c] tm vs]. unfold derived in Hs. simpl in *. subst vs.
    unfold CocSnippet.adjustPosition, CocSnippet.update. simpl.
    rewrite (add_safe l dl Hl'), (add_safe c dc Hc').
    rewrite add_safe by (now replace (l + dl + - dl) with l by lia).
    rewrite add_safe by (now replace (c + dc + - dc) with c by lia).
    replace (l + dl + - dl) with l by lia.
    replace (c + dc + - dc) with c by lia. reflexivity. }
  now rewrite Heq.
Qed.

(** C9: [adjustPosition] moves the anchor by the two counts and keeps the
    tree, so [toString()] is unchanged and, on an object whose list is the
    derived one, so are the index, id, value, isFinalTabstop, transform
    and choice of every view. *)
Theorem adjustPosition_keeps_content (s : CocSnippet.t T) (dChar dLine : Z) :
  derived s ->
  CocSnippet.position (CocSnippet.adjustPosition s dChar dLine)
  = LSP.mkPosition (JS.add (LSP.line (CocSnippet.position s)) dLine)
                   (JS.add (LSP.character (CocSnippet.position s)) dChar)
  /\ CocSnippet.tmSnippet (CocSnippet.adjustPosition s dChar dLine)
     = CocSnippet.tmSnippet s
  /\ CocSnippet.toString (CocSnippet.adjustPosition s dChar dLine)
     = CocSnippet.toString s
  /\ map content (CocSnippet._placeholders (CocSnippet.adjustPosition s dChar dLine))
     = map content (CocSnippet._placeholders s).
Proof.
  intro Hs. repeat split. rewrite Hs. simpl. unfold CocSnippet.views.
  now apply mapi_map.
Qed.

End Anchor.

(** ** Ranges after every method, and nested insertion *)

Section Methods.

Context {T : Type} {TM : Snippets.TextmateSnippet T}
        {Doc : LSP.TextDocument}.


(** X19: [insertSnippet] hands the tree's insertion the template, the
    active placeholder's id and the character offset of the position from
    the placeholder's start, returns the number the tree's insertion
    returns and leaves the list derived from the tree it leaves.  On an object
    whose list is the derived one, the flag it passes is false, no
    duplicate marker, exactly when the placeholder whose id is the active
    one's plus one exists and starts at the insertion position, and true
    in every other case. *)
Theorem insertSnippet_duplicate_marker
        {NI : Snippets.NestedInsertion T} (tm : T) (anchor : LSP.Position)
        (p : CocSnippetPlaceholder) (snippet : string)
        (at_position : LSP.Position) :
  CocSnippet.insertSnippet (CocSnippet.create tm anchor) p snippet at_position
  = (CocSnippet.create
       (fst (Snippets.insertSnippet tm snippet (id p)
               (LSP.character at_position
                - LSP.character (LSP.start (range p)))
               (CocSnippet.insertFinal (CocSnippet.create tm anchor) p
                  at_position)))
       anchor,
     snd (Snippets.insertSnippet tm snippet (id p)
            (LSP.character at_position
             - LSP.character (LSP.start (range p)))
            (CocSnippet.insertFinal (CocSnippet.create tm anchor) p
               at_position)))
  /\ (CocSnippet.insertFinal (CocSnippet.create tm anchor) p at_position = false
      <-> exists next,
            CocSnippet.getPlaceholderById (CocSnippet.create tm anchor)
              (id p + 1) = Some next
            /\ LSP.start (range next) = at_position)
  /\ (CocSnippet.insertFinal (CocSnippet.create tm anchor) p at_position = true
      <-> ~ exists next,
              CocSnippet.getPlaceholderById (CocSnippet.create tm anchor)
                (id p + 1) = Some next
              /\ LSP.start (range next) = at_position).
Proof.
  set (s := CocSnippet.create tm anchor).
  assert (Hdecide :
            CocSnippet.insertFinal s p at_position = false
            <-> exists next,
                  CocSnippet.getPlaceholderById s (id p + 1) = Some next
                  /\ LSP.start (range next) = at_position).
  { rewrite derived_getPlaceholderById by apply create_derived.
    unfold CocSnippet.insertFinal.
    destruct (JS.at_ (CocSnippet._placeholders s) (id p + 1)) as [next|].
    - destruct (LSP.equals (LSP.start (range next)) at_position) eqn:He.
      + split; [intros _|reflexivity]. exists next. split; [reflexivity|].
        unfold LSP.equals in He. apply andb_prop in He as [Hl Hc].
        apply Z.eqb_eq in Hl, Hc.
        destruct (LSP.start (range next)), at_position. simpl in *. congruence.
      + split; [discriminate|]. intros (n & [= <-] & Heq).
        rewrite Heq in He. unfold LSP.equals in He.
        now rewrite !Z.eqb_refl in He.
    - split; [discriminate|]. now intros (n & Hn & _). }
  split; [apply (insertSnippet_create s)|]. split; [exact Hdecide|].
  rewrite <- Hdecide.
  destruct (CocSnippet.insertFinal s p at_position); split; congruence.
Qed.

End Methods.

Lemma adjustPosition_round_trip_witness :
  derived (Examples.new Examples.call (LSP.mkPosition 3 2))
  /\ JS.safe 3 /\ JS.safe 2 /\ JS.safe (3 + 2) /\ JS.safe (2 + 5)
  /\ CocSnippet.adjustPosition
       (CocSnippet.adjustPosition
          (Examples.new Examples.call (LSP.mkPosition 3 2)) 5 2)
       (- 5) (- 2)
     = Examples.new Examples.call (LSP.mkPosition 3 2).
Proof.
  assert (Hsafe : forall z, Z.abs z <= 10 -> JS.safe z)
    by (intros z Hz; unfold JS.safe, JS.maxExact; lia).
  split; [reflexivity|].
  split; [apply Hsafe; simpl; lia|]. split; [apply Hsafe; simpl; lia|].
  split; [apply Hsafe; simpl; lia|]. split; [apply Hsafe; simpl; lia|].
  apply (adjustPosition_round_trip
           (Examples.new Examples.call (LSP.mkPosition 3 2)) 5 2).
  - reflexivity.
  - apply Hsafe; simpl; lia.
  - apply Hsafe; simpl; lia.
  - apply Hsafe; simpl; lia.
  - apply Hsafe; simpl; lia.
Defined.

(** C8 does not hold as worded: with the anchor at (0,1), the count
    2^53 takes the character to 2^53, the sum 1 + 2^53 not being a number,
    and the count -2^53 takes it back to 0: the anchor ends at (0,0) and
    every range one character to the left of where it was. *)
Lemma adjustPosition_round_trip_rounds :
  CocSnippet.position (Examples.new Examples.call (LSP.mkPosition 0 1))
  = LSP.mkPosition 0 1
  /\ CocSnippet.position
       (CocSnippet.adjustPosition
          (CocSnippet.adjustPosition
             (Examples.new Examples.call (LSP.mkPosition 0 1))
             9007199254740992 0)
          (- 9007199254740992) (- 0))
     = LSP.mkPosition 0 0
  /\ map range
         (CocSnippet._placeholders
            (Examples.new Examples.call (LSP.mkPosition 0 1)))
     = [LSP.mkRange (LSP.mkPosition 0 5) (LSP.mkPosition 0 8);
        LSP.mkRange (LSP.mkPosition 0 10) (LSP.mkPosition 0 13);
        LSP.mkRange (LSP.mkPosition 0 14) (LSP.mkPosition 0 14)]
  /\ map range
         (CocSnippet._placeholders
            (CocSnippet.adjustPosition
               (CocSnippet.adjustPosition
                  (Examples.new Examples.call (LSP.mkPosition 0 1))
                  9007199254740992 0)
               (- 9007199254740992) (- 0)))
     = [LSP.mkRange (LSP.mkPosition 0 4) (LSP.mkPosition 0 7);
        LSP.mkRange (LSP.mkPosition 0 9) (LSP.mkPosition 0 12);
        LSP.mkRange (LSP.mkPosition 0 13) (LSP.mkPosition 0 13)].
Proof. repeat split; vm_compute; reflexivity. Qed.

Lemma adjustPosition_keeps_content_witness :
  derived (Examples.new Examples.mirrored (LSP.mkPosition 3 2))
  /\ map content
       (CocSnippet._placeholders
          (CocSnippet.adjustPosition
             (Examples.new Examples.mirrored (LSP.mkPosition 3 2)) 4 1))
     = map content
         (CocSnippet._placeholders
            (Examples.new Examples.mirrored (LSP.mkPosition 3 2))).
Proof.
  split.
  - reflexivity.
  - apply (adjustPosition_keeps_content
             (Examples.new Examples.mirrored (LSP.mkPosition 3 2)) 4 1).
    reflexivity.
Defined.

(** ** Slicing strings *)

Lemma append_empty (s : string) : (s ++ EmptyString)%string = s.
Proof. induction s as [|c s IH]; simpl; [reflexivity|now rewrite IH]. Qed.

Lemma substring_none (s : string) : forall n, substring n 0 s = EmptyString.
Proof.
  induction s as [|c s IH]; intros [|n]; simpl; try reflexivity. apply IH.
Qed.

Lemma slice_prefix (s : string) (a : Z) :
  0 <= a <= Z.of_nat (String.length s) ->
  JS.slice s 0 (Some a) = substring 0 (Z.to_nat a) s.
Proof.
  intro Ha. unfold JS.slice, JS.relative.
  destruct (Z.ltb_spec 0 0); [lia|].
  destruct (Z.ltb_spec a 0); [lia|].
  rewrite Z.min_l by lia. rewrite Z.min_l by lia.
  now rewrite Z.sub_0_r.
Qed.

Lemma slice_suffix (s : string) (k : Z) :
  - Z.of_nat (String.length s) <= k < 0 ->
  JS.slice s k None
  = substring (Z.to_nat (Z.of_nat (String.length s) + k)) (Z.to_nat (- k)) s.
Proof.
  intro Hk. unfold JS.slice, JS.relative.
  destruct (Z.ltb_spec k 0); [|lia].
  rewrite Z.max_l by lia. f_equal. lia.
Qed.

(** ** Targeted edits *)

Section TargetedEdit.

Context {T : Type} {TM : Snippets.TextmateSnippet T}
        {Doc : LSP.TextDocument}.

(** C10: [updatePlaceholder] has no guard on the edit's range: for every
    edit it returns, with the text [editedText] computes written to the
    tree.  When the edit ends at or after the character the placeholder's
    range ends at, no suffix is kept: the text written is what [slice]
    keeps of the value before the edit's start, followed by the edit's
    text. *)
Theorem updatePlaceholder_without_validation
        (s : CocSnippet.t T) (p : CocSnippetPlaceholder) (edit : LSP.TextEdit) :
  CocSnippet.updatePlaceholder s p edit
  = applyText s p (CocSnippet.editedText p edit)
  /\ (LSP.character (LSP.end_ (LSP.range edit))
      >= LSP.character (LSP.end_ (range p)) ->
      CocSnippet.editedText p edit
      = (JS.slice (value p) 0
           (Some (LSP.character (LSP.start (LSP.range edit))
                  - LSP.character (LSP.start (range p))))
         ++ LSP.newText edit)%string).
Proof.
  split; [apply updatePlaceholder_create|].
  intro Hend. unfold CocSnippet.editedText.
  destruct (Z.gtb_spec (LSP.character (LSP.end_ (range p)))
                       (LSP.character (LSP.end_ (LSP.range edit)))); [lia|].
  now rewrite append_empty.
Qed.

(** C4, as the code has it: the list [updatePlaceholder] returns holds, in
    the order of the list, one synthetic edit for each other occurrence of
    the edited index whose recomputed text differs from its value, and
    nothing for the others, hence nothing at all when the edited index has
    no other occurrence.  The other occurrences, their values and the
    ranges the edits carry are those of the list re-derived after the
    edited occurrence's new text was written, not those of the list before
    the call. *)
Theorem updatePlaceholder_synthetic_edits
        (s : CocSnippet.t T) (p : CocSnippetPlaceholder) (edit : LSP.TextEdit) :
  snd (CocSnippet.updatePlaceholder s p edit)
  = flat_map (fun '(o, text) => synthetic o text)
      (combine
         (others (CocSnippet.setPlaceholderValue s (id p)
                    (CocSnippet.editedText p edit)) p)
         (recomputed
            (CocSnippet.tmSnippet
               (CocSnippet.setPlaceholderValue s (id p)
                  (CocSnippet.editedText p edit)))
            (CocSnippet.editedText p edit)
            (others (CocSnippet.setPlaceholderValue s (id p)
                       (CocSnippet.editedText p edit)) p)))
  /\ List.length
       (recomputed
          (CocSnippet.tmSnippet
             (CocSnippet.setPlaceholderValue s (id p)
                (CocSnippet.editedText p edit)))
          (CocSnippet.editedText p edit)
          (others (CocSnippet.setPlaceholderValue s (id p)
                     (CocSnippet.editedText p edit)) p))
     = List.length
         (others (CocSnippet.setPlaceholderValue s (id p)
                    (CocSnippet.editedText p edit)) p)
  /\ (forall o,
         In o (others (CocSnippet.setPlaceholderValue s (id p)
                         (CocSnippet.editedText p edit)) p)
         <-> In o (CocSnippet.views
                     (fst (Snippets.updatePlaceholder (CocSnippet.tmSnippet s)
                             (id p) (CocSnippet.editedText p edit)))
                     (CocSnippet.position s))
             /\ index o = index p /\ id o <> id p)
  /\ (forall o text,
         (text <> value o ->
          synthetic o text = [LSP.mkTextEdit (range o) text])
         /\ (text = value o -> synthetic o text = []))
  /\ (others (CocSnippet.setPlaceholderValue s (id p)
                (CocSnippet.editedText p edit)) p = [] ->
      snd (CocSnippet.updatePlaceholder s p edit) = []).
Proof.
  set (newText := CocSnippet.editedText p edit).
  set (s1 := CocSnippet.setPlaceholderValue s (id p) newText).
  assert (Hedits : snd (CocSnippet.updatePlaceholder s p edit)
                   = flat_map (fun '(o, text) => synthetic o text)
                       (combine (others s1 p)
                          (recomputed (CocSnippet.tmSnippet s1) newText
                             (others s1 p)))).
  { rewrite updatePlaceholder_create. unfold applyText. simpl.
    fold newText. fold s1. now rewrite forEachOther_recomputed. }
  split; [exact Hedits|]. split; [|split; [|split]].
  - apply recomputed_length.
  - intro o. unfold others, s1. rewrite setPlaceholderValue_create.
    simpl. rewrite filter_In, andb_true_iff, negb_true_iff.
    rewrite Z.eqb_eq, Z.eqb_neq. tauto.
  - intros o text. unfold synthetic.
    destruct (String.eqb_spec text (value o)); split; congruence.
  - intro Hnone. rewrite Hedits, Hnone. reflexivity.
Qed.

End TargetedEdit.

(** [foo(${1:bar}, ${2:baz})$0] at the origin: replacing (0,6)-(0,20),
    which runs far past the placeholder [bar] at (0,4)-(0,7), by [X]
    writes [baX], and nothing is reported. *)
Lemma updatePlaceholder_without_validation_witness :
  LSP.character (LSP.mkPosition 0 20)
  >= LSP.character
       (LSP.end_ (range (CocSnippet.view Examples.call Examples.origin 0
                           (Snippets.mkPlaceholder 1 false false None "bar"))))
  /\ CocSnippet.editedText
       (CocSnippet.view Examples.call Examples.origin 0
          (Snippets.mkPlaceholder 1 false false None "bar"))
       (LSP.mkTextEdit
          (LSP.mkRange (LSP.mkPosition 0 6) (LSP.mkPosition 0 20)) "X")
     = "baX"%string
  /\ CocSnippet.toString
       (fst (CocSnippet.updatePlaceholder
               (Examples.new Examples.call Examples.origin)
               (CocSnippet.view Examples.call Examples.origin 0
                  (Snippets.mkPlaceholder 1 false false None "bar"))
               (LSP.mkTextEdit
                  (LSP.mkRange (LSP.mkPosition 0 6) (LSP.mkPosition 0 20))
                  "X")))
     = "foo(baX, baz)"%string.
Proof.
  assert (Hend : LSP.character (LSP.mkPosition 0 20)
                 >= LSP.character
                      (LSP.end_
                         (range (CocSnippet.view Examples.call Examples.origin 0
                                   (Snippets.mkPlaceholder 1 false false None
                                      "bar")))))
    by (vm_compute; discriminate).
  destruct (updatePlaceholder_without_validation
              (Examples.new Examples.call Examples.origin)
              (CocSnippet.view Examples.call Examples.origin 0
                 (Snippets.mkPlaceholder 1 false false None "bar"))
              (LSP.mkTextEdit
                 (LSP.mkRange (LSP.mkPosition 0 6) (LSP.mkPosition 0 20)) "X"))
    as [Hcall Htext].
  specialize (Htext Hend).
  split; [exact Hend|]. split; [rewrite Htext; reflexivity|].
  rewrite Hcall, Htext. reflexivity.
Defined.

(** C4 does not hold as worded: in [$1 and ${1/.*/[&]/}$0] at the
    origin the transform occurrence has the range (0,5)-(0,5) before the
    call; typing [X] into the first occurrence returns one synthetic edit,
    with the text [[X]] and the range (0,6)-(0,6) the occurrence has once
    [X] is written, not its range before the call. *)
Lemma synthetic_edit_range_is_rederived :
  map range
      (others (Examples.new Examples.mirrored Examples.origin)
         (CocSnippet.view Examples.mirrored Examples.origin 0
            (Snippets.mkPlaceholder 1 false false None EmptyString)))
  = [LSP.mkRange (LSP.mkPosition 0 5) (LSP.mkPosition 0 5)]
  /\ snd (CocSnippet.updatePlaceholder
            (Examples.new Examples.mirrored Examples.origin)
            (CocSnippet.view Examples.mirrored Examples.origin 0
               (Snippets.mkPlaceholder 1 false false None EmptyString))
            (LSP.mkTextEdit
               (LSP.mkRange (LSP.mkPosition 0 0) (LSP.mkPosition 0 0)) "X"))
     = [LSP.mkTextEdit (LSP.mkRange (LSP.mkPosition 0 6) (LSP.mkPosition 0 6))
          "[X]"]
  /\ map LSP.range
         (snd (CocSnippet.updatePlaceholder
                 (Examples.new Examples.mirrored Examples.origin)
                 (CocSnippet.view Examples.mirrored Examples.origin 0
                    (Snippets.mkPlaceholder 1 false false None EmptyString))
                 (LSP.mkTextEdit
                    (LSP.mkRange (LSP.mkPosition 0 0) (LSP.mkPosition 0 0))
                    "X")))
     <> map range
            (others (Examples.new Examples.mirrored Examples.origin)
               (CocSnippet.view Examples.mirrored Examples.origin 0
                  (Snippets.mkPlaceholder 1 false false None EmptyString))).
Proof.
  split; [reflexivity|]. split; [reflexivity|]. vm_compute. discriminate.
Qed.

(** ** Flat trees overwrite in place *)

Lemma substring_append_skip (a b : string) (n m : nat) :
  substring (String.length a + n) m (a ++ b) = substring n m b.
Proof. induction a as [|x a IH]; simpl; [reflexivity|exact IH]. Qed.

Lemma substring_append_prefix (a b : string) :
  substring 0 (String.length a) (a ++ b) = a.
Proof.
  induction a as [|x a IH]; simpl.
  - now destruct b.
  - now rewrite IH.
Qed.

Module FlatTreeFacts.

Lemma offset_in_text (tm : FlatTree.tree) :
  forall i p,
    nth_error (FlatTree.placeholders tm) i = Some p ->
    0 <= FlatTree.offset tm i
    /\ substring (Z.to_nat (FlatTree.offset tm i))
                 (String.length (Snippets.text p)) (FlatTree.toString tm)
       = Snippets.text p.
Proof.
  induction tm as [|[value|index transform final choice children] rest IH];
    intros i p Hp; simpl in *.
  - destruct i; discriminate.
  - destruct (IH i p Hp) as [Hpos Hsub].
    destruct (Z.ltb_spec (FlatTree.offset rest i) 0); [lia|].
    split; [lia|].
    rewrite Z2Nat.inj_add, Nat2Z.id by lia.
    now rewrite substring_append_skip.
  - destruct i as [|i]; simpl in *.
    + injection Hp as <-. simpl. split; [lia|].
      apply substring_append_prefix.
    + destruct (IH i p Hp) as [Hpos Hsub].
      destruct (Z.ltb_spec (FlatTree.offset rest i) 0); [lia|].
      split; [lia|].
      rewrite Z2Nat.inj_add, Nat2Z.id by lia.
      now rewrite substring_append_skip.
Qed.

Lemma write_placeholders (val : string) (tm : FlatTree.tree) :
  forall i p,
    nth_error (FlatTree.placeholders tm) i = Some p ->
    FlatTree.placeholders (fst (FlatTree.write tm i val))
    = replaceAt (FlatTree.placeholders tm) i
        (withText p (snd (FlatTree.write tm i val))).
Proof.
  induction tm as [|[value|index transform final choice children] rest IH];
    intros i p Hp; simpl in *.
  - destruct i; discriminate.
  - specialize (IH i p Hp). destruct (FlatTree.write rest i val). exact IH.
  - destruct i as [|i]; simpl in *.
    + injection Hp as <-. reflexivity.
    + specialize (IH i p Hp). destruct (FlatTree.write rest i val).
      simpl in *. now rewrite IH.
Qed.

Lemma write_verbatim (val : string) (tm : FlatTree.tree) :
  forall i p,
    nth_error (FlatTree.placeholders tm) i = Some p ->
    Snippets.transform p = false ->
    snd (FlatTree.write tm i val) = val.
Proof.
  induction tm as [|[value|index transform final choice children] rest IH];
    intros i p; simpl.
  - destruct i; discriminate.
  - intros Hp Ht. specialize (IH i p Hp Ht).
    destruct (FlatTree.write rest i val). exact IH.
  - destruct i as [|i]; simpl.
    + intros [= <-]. simpl. now destruct transform.
    + intros Hp Ht. specialize (IH i p Hp Ht).
      destruct (FlatTree.write rest i val). exact IH.
Qed.

Lemma updatePlaceholder_write (tm : FlatTree.tree) (i : nat) (val : string) :
  FlatTree.updatePlaceholder tm (Z.of_nat i) val = FlatTree.write tm i val.
Proof.
  unfold FlatTree.updatePlaceholder.
  destruct (Z.ltb_spec (Z.of_nat i) 0); [lia|]. now rewrite Nat2Z.id.
Qed.

(** Every flat tree overwrites in place. *)
Lemma in_place : OverwritesInPlace (fun _ : FlatTree.tree => True).
Proof.
  constructor; simpl.
  - intros tm i p _. apply offset_in_text.
  - intros tm i p val _. rewrite updatePlaceholder_write.
    apply write_placeholders.
  - intros tm i p val _. rewrite updatePlaceholder_write. apply write_verbatim.
  - intros. exact I.
Qed.

End FlatTreeFacts.

(** ** The text of an edited occurrence and of its mirrors *)

Lemma nth_error_replaceAt_same {A : Type} (l : list A) :
  forall k x y,
    nth_error l k = Some y -> nth_error (replaceAt l k x) k = Some x.
Proof.
  induction l as [|z l IH]; intros [|k] x y Hk; simpl in *;
    try discriminate; [reflexivity|].
  exact (IH k x y Hk).
Qed.

Lemma nth_error_replaceAt_other {A : Type} (l : list A) :
  forall k j x, j <> k -> nth_error (replaceAt l k x) j = nth_error l j.
Proof.
  induction l as [|z l IH]; intros [|k] [|j] x Hne; simpl;
    try reflexivity; try contradiction.
  apply IH. congruence.
Qed.

Lemma replaceAt_shape (l : list Snippets.Placeholder) :
  forall k p text,
    nth_error l k = Some p ->
    map Snippets.shape (replaceAt l k (withText p text)) = map Snippets.shape l.
Proof.
  induction l as [|z l IH]; intros [|k] p text Hk; simpl in *;
    try discriminate.
  - injection Hk as <-. reflexivity.
  - now rewrite (IH k p text Hk).
Qed.

Lemma shape_nth_error (l l' : list Snippets.Placeholder) (j : nat)
      (p' : Snippets.Placeholder) :
  map Snippets.shape l' = map Snippets.shape l ->
  nth_error l' j = Some p' ->
  exists p, nth_error l j = Some p /\ Snippets.shape p = Snippets.shape p'.
Proof.
  intros Hshape Hp'.
  apply (map_nth_error Snippets.shape) in Hp'. rewrite Hshape in Hp'.
  rewrite nth_error_map in Hp'.
  destruct (nth_error l j) as [p|]; [|discriminate].
  exists p. split; [reflexivity|]. simpl in Hp'. congruence.
Qed.

Section Splice.

Context {T : Type} {TM : Snippets.TextmateSnippet T}
        {Doc : LSP.TextDocument}.

Lemma editedText_splice (p : CocSnippetPlaceholder) (edit : LSP.TextEdit) :
  confined edit p ->
  LSP.character (LSP.end_ (range p))
  = LSP.character (LSP.start (range p)) + Z.of_nat (String.length (value p)) ->
  CocSnippet.editedText p edit
  = splice (value p)
      (Z.to_nat (LSP.character (LSP.start (LSP.range edit))
                 - LSP.character (LSP.start (range p))))
      (Z.to_nat (LSP.character (LSP.end_ (LSP.range edit))
                 - LSP.character (LSP.start (range p))))
      (LSP.newText edit).
Proof.
  intros (_ & _ & H1 & H2 & H3) Hend.
  unfold CocSnippet.editedText, splice.
  rewrite slice_prefix by lia. f_equal. f_equal.
  destruct (Z.gtb_spec (LSP.character (LSP.end_ (range p)))
                       (LSP.character (LSP.end_ (LSP.range edit)))).
  - rewrite slice_suffix by lia. f_equal; lia.
  - replace (String.length (value p)
             - Z.to_nat (LSP.character (LSP.end_ (LSP.range edit))
                         - LSP.character (LSP.start (range p))))%nat
      with 0%nat by lia.
    now rewrite substring_none.
Qed.

Lemma views_In (tm : T) (anchor : LSP.Position) (o : CocSnippetPlaceholder) :
  In o (CocSnippet.views tm anchor) ->
  exists k n,
    nth_error (Snippets.placeholders tm) k = Some n
    /\ o = CocSnippet.view tm anchor k n.
Proof.
  intro Ho. apply In_nth_error in Ho as [k Hk].
  rewrite views_nth_error in Hk.
  destruct (nth_error (Snippets.placeholders tm) k) as [n|] eqn:Hn;
    [|discriminate].
  exists k, n. split; [exact Hn|]. simpl in Hk. congruence.
Qed.

Lemma views_ids_NoDup (tm : T) (anchor : LSP.Position)
      (f : CocSnippetPlaceholder -> bool) :
  NoDup (map id (filter f (CocSnippet.views tm anchor))).
Proof.
  unfold CocSnippet.views. generalize 0%nat.
  induction (Snippets.placeholders tm) as [|p rest IH]; intro k; simpl.
  - constructor.
  - destruct (f (CocSnippet.view tm anchor k p)); [|apply IH].
    simpl. constructor; [|apply IH].
    intro Hin. apply in_map_iff in Hin as (o & Hid & Ho).
    apply filter_In in Ho as [Ho _].
    apply (mapi_In_id (CocSnippet.view tm anchor) (fun _ _ => eq_refl)) in Ho.
    lia.
Qed.

Variable family : T -> Prop.
Hypothesis in_place : OverwritesInPlace family.

(** One overwrite, as the family promises it. *)
Lemma overwrite_in_place (tm tm' : T) (j : nat) (node : Snippets.Placeholder)
      (val text : string) :
  family tm ->
  nth_error (Snippets.placeholders tm) j = Some node ->
  Snippets.updatePlaceholder tm (Z.of_nat j) val = (tm', text) ->
  family tm'
  /\ Snippets.placeholders tm'
     = replaceAt (Snippets.placeholders tm) j (withText node text).
Proof.
  intros Hfam Hnode Hcall. split.
  - pose proof (family_closed family in_place tm j node val Hfam Hnode) as H.
    now rewrite Hcall in H.
  - pose proof (family_written family in_place tm j node val Hfam Hnode) as H.
    now rewrite Hcall in H.
Qed.

(** The loop of [updatePlaceholder] over occurrences with distinct ids:
    the nodes keep their indices and flags, a node that is not written
    keeps its text, and a node that is written renders the text the tree
    returned for it. *)
Lemma forEachOther_in_place (newText : string)
      (os : list CocSnippetPlaceholder) :
  forall (tm : T) (edits : list LSP.TextEdit),
    family tm ->
    (forall o, In o os ->
               exists j node,
                 id o = Z.of_nat j
                 /\ nth_error (Snippets.placeholders tm) j = Some node) ->
    NoDup (map id os) ->
    family (fst (CocSnippet.forEachOther tm newText os edits))
    /\ map Snippets.shape
           (Snippets.placeholders
              (fst (CocSnippet.forEachOther tm newText os edits)))
       = map Snippets.shape (Snippets.placeholders tm)
    /\ (forall j,
           (forall o, In o os -> id o <> Z.of_nat j) ->
           nth_error
             (Snippets.placeholders
                (fst (CocSnippet.forEachOther tm newText os edits))) j
           = nth_error (Snippets.placeholders tm) j)
    /\ (forall k o,
           nth_error os k = Some o ->
           exists node',
             nth_error
               (Snippets.placeholders
                  (fst (CocSnippet.forEachOther tm newText os edits)))
               (Z.to_nat (id o)) = Some node'
             /\ nth_error (recomputed tm newText os) k
                = Some (Snippets.text node')).
Proof.
  induction os as [|o rest IH]; intros tm edits Hfam Hvalid Hnodup.
  - simpl. split; [exact Hfam|]. split; [reflexivity|]. split; [reflexivity|].
    intros [|k] o' Hk; discriminate.
  - destruct (Hvalid o (or_introl eq_refl)) as (j & node & Hid & Hnode).
    simpl. rewrite Hid.
    destruct (Snippets.updatePlaceholder tm (Z.of_nat j) newText)
      as [tm' text] eqn:Hcall.
    destruct (overwrite_in_place tm tm' j node newText text Hfam Hnode Hcall)
      as [Hfam' Hnodes'].
    inversion Hnodup as [|x xs Hfresh Hnodup' [Hx Hxs]]. subst x xs.
    assert (Hvalid' : forall o', In o' rest ->
                                 exists j' node',
                                   id o' = Z.of_nat j'
                                   /\ nth_error (Snippets.placeholders tm') j'
                                      = Some node').
    { intros o' Ho'. destruct (Hvalid o' (or_intror Ho')) as (j' & n' & Hid' & Hn').
      exists j'. rewrite Hnodes'.
      destruct (Nat.eq_dec j' j) as [->|Hne].
      - exists (withText node text). split; [exact Hid'|].
        now apply nth_error_replaceAt_same with (y := node).
      - exists n'. split; [exact Hid'|].
        now rewrite nth_error_replaceAt_other. }
    destruct (IH tm'
                (if String.eqb text (value o) then edits
                 else edits ++ [LSP.mkTextEdit (range o) text])
                Hfam' Hvalid' Hnodup')
      as (HfamF & HshapeF & HframeF & HtextsF).
    split; [exact HfamF|]. split; [|split].
    + rewrite HshapeF, Hnodes'. now apply replaceAt_shape.
    + intros j0 Hj0. rewrite HframeF.
      * rewrite Hnodes'. apply nth_error_replaceAt_other.
        intro Heq. subst j0. apply (Hj0 o); [now left|exact Hid].
      * intros o' Ho'. apply Hj0. now right.
    + intros [|k] o' Hk; simpl in Hk.
      * injection Hk as <-. exists (withText node text). split; [|reflexivity].
        rewrite Hid, Nat2Z.id, HframeF.
        -- rewrite Hnodes'. now apply nth_error_replaceAt_same with (y := node).
        -- intros o' Ho' Heq. apply Hfresh. apply in_map_iff.
           exists o'. split; [congruence|exact Ho'].
      * exact (HtextsF k o' Hk).
Qed.


End Splice.



(** A transform is written through its rule: in [$1 and ${1/.*/[&]/}$0]
    at the origin, typing [X] into the second occurrence writes [X] and the
    occurrence renders [[X]]. *)
Example transform_occurrence_renders_its_rule :
  CocSnippet.editedText
    (CocSnippet.view Examples.mirrored Examples.origin 1
       (Snippets.mkPlaceholder 1 true false None EmptyString))
    (LSP.mkTextEdit (LSP.mkRange (LSP.mkPosition 0 5) (LSP.mkPosition 0 5)) "X")
  = "X"%string
  /\ option_map value
       (Examples.viewAt
          (fst (CocSnippet.updatePlaceholder
                  (Examples.new Examples.mirrored Examples.origin)
                  (CocSnippet.view Examples.mirrored Examples.origin 1
                     (Snippets.mkPlaceholder 1 true false None EmptyString))
                  (LSP.mkTextEdit
                     (LSP.mkRange (LSP.mkPosition 0 5) (LSP.mkPosition 0 5))
                     "X"))) 1)
     = Some "[X]"%string.
Proof. split; reflexivity. Qed.

(** [$1 and ${1/.*/[&]/}$0] at the origin: once [X] is typed into the
    first occurrence the snippet reads [X and [X]]. *)
Example mirrored_after_typing :
  CocSnippet.toString
    (fst (CocSnippet.updatePlaceholder
            (Examples.new Examples.mirrored Examples.origin)
            (CocSnippet.view Examples.mirrored Examples.origin 0
               (Snippets.mkPlaceholder 1 false false None EmptyString))
            (LSP.mkTextEdit
               (LSP.mkRange (LSP.mkPosition 0 0) (LSP.mkPosition 0 0)) "X")))
  = "X and [X]"%string.
Proof. reflexivity. Qed.

(** The list derived for [foo(${1:bar}, ${2:baz})$0] at the origin, and
    the shift of the second placeholder when [bar] becomes [barn]. *)
Example call_ranges :
  map (fun v => (index v, value v, range v, isFinalTabstop v))
      (CocSnippet._placeholders (Examples.new Examples.call Examples.origin))
  = [(1, "bar"%string,
      LSP.mkRange (LSP.mkPosition 0 4) (LSP.mkPosition 0 7), false);
     (2, "baz"%string,
      LSP.mkRange (LSP.mkPosition 0 9) (LSP.mkPosition 0 12), false);
     (0, EmptyString,
      LSP.mkRange (LSP.mkPosition 0 13) (LSP.mkPosition 0 13), true)]
  /\ CocSnippet.isPlainText (Examples.new Examples.call Examples.origin) = false
  /\ (let r :=
        CocSnippet.updatePlaceholder
          (Examples.new Examples.call Examples.origin)
          (CocSnippet.view Examples.call Examples.origin 0
             (Snippets.mkPlaceholder 1 false false None "bar"))
          (LSP.mkTextEdit
             (LSP.mkRange (LSP.mkPosition 0 4) (LSP.mkPosition 0 7)) "barn") in
      snd r = []
      /\ option_map range (Examples.viewAt (fst r) 1)
         = Some (LSP.mkRange (LSP.mkPosition 0 10) (LSP.mkPosition 0 13))).
Proof. repeat split. Qed.

(** [if (${1:cond}) {], a line break, two spaces and [${2:body}$0] at
    (3,2): the first line's placeholder is shifted by the anchor's
    character, the second line's is not. *)
Example block_ranges :
  map (fun v => (value v, range v))
      (CocSnippet._placeholders (Examples.new Examples.block (LSP.mkPosition 3 2)))
  = [("cond"%string, LSP.mkRange (LSP.mkPosition 3 6) (LSP.mkPosition 3 10));
     ("body"%string, LSP.mkRange (LSP.mkPosition 4 2) (LSP.mkPosition 4 6));
     (EmptyString, LSP.mkRange (LSP.mkPosition 4 6) (LSP.mkPosition 4 6))].
Proof. reflexivity. Qed.

(** [${1:a}${2:b}$0] at the origin: at (0,1), where the second
    placeholder starts, no duplicate marker is asked for; at (0,0) one is. *)
Example adjacent_insertFinal :
  CocSnippet.insertFinal (Examples.new Examples.adjacent Examples.origin)
    (CocSnippet.view Examples.adjacent Examples.origin 0
       (Snippets.mkPlaceholder 1 false false None "a"))
    (LSP.mkPosition 0 1) = false
  /\ CocSnippet.insertFinal (Examples.new Examples.adjacent Examples.origin)
       (CocSnippet.view Examples.adjacent Examples.origin 0
          (Snippets.mkPlaceholder 1 false false None "a"))
       (LSP.mkPosition 0 0) = true.
Proof. split; reflexivity. Qed.

(** An edit before the snippet on its line moves the anchor; an edit
    after it does not. *)
Example adjustTextEdit_before_and_after :
  CocSnippet.adjustTextEdit (Examples.new Examples.call (LSP.mkPosition 3 2))
    (LSP.mkTextEdit (LSP.mkRange (LSP.mkPosition 3 0) (LSP.mkPosition 3 1)) "xyz")
  = (Examples.new Examples.call (LSP.mkPosition 3 4), true)
  /\ CocSnippet.adjustTextEdit (Examples.new Examples.call (LSP.mkPosition 3 2))
       (LSP.mkTextEdit (LSP.mkRange (LSP.mkPosition 5 0) (LSP.mkPosition 5 1))
          "xyz")
     = (Examples.new Examples.call (LSP.mkPosition 3 2), false).
Proof. split; reflexivity. Qed.

(** ** The derived list: ids, fields and lookups *)

Lemma mapi_length {A B : Type} (f : nat -> A -> B) (arr : list A) :
  forall k, List.length (JS.mapi f k arr) = List.length arr.
Proof.
  induction arr as [|x rest IH]; intro k; simpl; [reflexivity|].
  now rewrite IH.
Qed.

Lemma find_mapi_first {A : Type} (f : nat -> A -> CocSnippetPlaceholder)
      (g : CocSnippetPlaceholder -> bool) :
  (forall i x, id (f i x) = Z.of_nat i) ->
  forall arr k v,
    find g (JS.mapi f k arr) = Some v ->
    In v (JS.mapi f k arr) /\ g v = true
    /\ forall w, In w (JS.mapi f k arr) -> g w = true -> id v <= id w.
Proof.
  intro Hid. induction arr as [|x rest IH]; intros k v Hv; simpl in *.
  - discriminate.
  - destruct (g (f k x)) eqn:Hg.
    + injection Hv as <-. split; [now left|]. split; [exact Hg|].
      intros w [<-|Hw] _; [lia|].
      apply (mapi_In_id f Hid) in Hw. rewrite Hid. lia.
    + destruct (IH (S k) v Hv) as (Hin & Hgv & Hleast).
      split; [now right|]. split; [exact Hgv|].
      intros w [<-|Hw] Hgw; [congruence|]. now apply Hleast.
Qed.

Lemma hd_error_filter {A : Type} (f : A -> bool) (l : list A) :
  hd_error (filter f l) = find f l.
Proof.
  induction l as [|x l IH]; simpl; [reflexivity|].
  now destruct (f x).
Qed.

Lemma filter_filter {A : Type} (f g : A -> bool) (l : list A) :
  filter g (filter f l) = filter (fun x => f x && g x) l.
Proof.
  induction l as [|x l IH]; simpl; [reflexivity|].
  destruct (f x); simpl; [|exact IH].
  destruct (g x); now rewrite IH.
Qed.

Section Lookup.

Context {T : Type} {TM : Snippets.TextmateSnippet T}
        {Doc : LSP.TextDocument}.

(** X1: the list the constructor derives has one view per placeholder
    node of the tree, and the view at list position [i] has id [i]: ids
    are the positions 0 .. n-1 in document order, so no two views share
    one. *)
Theorem ids_are_list_positions (tm : T) (anchor : LSP.Position) :
  List.length (CocSnippet._placeholders (CocSnippet.create tm anchor))
  = List.length (Snippets.placeholders tm)
  /\ (forall i v,
         nth_error (CocSnippet._placeholders (CocSnippet.create tm anchor)) i
         = Some v ->
         id v = Z.of_nat i)
  /\ (forall i j v w,
         nth_error (CocSnippet._placeholders (CocSnippet.create tm anchor)) i
         = Some v ->
         nth_error (CocSnippet._placeholders (CocSnippet.create tm anchor)) j
         = Some w ->
         id v = id w -> i = j).
Proof.
  assert (Hpos : forall i v,
             nth_error (CocSnippet._placeholders (CocSnippet.create tm anchor)) i
             = Some v -> id v = Z.of_nat i).
  { intros i v Hv. simpl in Hv. rewrite views_nth_error in Hv.
    destruct (nth_error (Snippets.placeholders tm) i); [|discriminate].
    simpl in Hv. injection Hv as <-. reflexivity. }
  split; [apply mapi_length|]. split; [exact Hpos|].
  intros i j v w Hv Hw Heq.
  apply Hpos in Hv. apply Hpos in Hw. lia.
Qed.

(** X2: the view at list position [i] copies the index, the text and the
    two flags of the tree's [i]-th placeholder node, its [line] is its
    range's start line, and its [choice] is the node's option values when
    there is at least one and absent otherwise: a view never carries an
    empty choice list. *)
Theorem view_copies_the_node (tm : T) (anchor : LSP.Position) (i : nat)
        (v : CocSnippetPlaceholder) :
  nth_error (CocSnippet._placeholders (CocSnippet.create tm anchor)) i = Some v ->
  exists p,
    nth_error (Snippets.placeholders tm) i = Some p
    /\ index v = Snippets.index p
    /\ value v = Snippets.text p
    /\ isFinalTabstop v = Snippets.isFinalTabstop p
    /\ transform v = Snippets.transform p
    /\ line v = LSP.line (LSP.start (range v))
    /\ choice v <> Some []
    /\ (forall options, choice v = Some options -> Snippets.choice p = Some options)
    /\ (choice v = None ->
        Snippets.choice p = None \/ Snippets.choice p = Some []).
Proof.
  intro Hv. simpl in Hv. rewrite views_nth_error in Hv.
  destruct (nth_error (Snippets.placeholders tm) i) as [p|]; [|discriminate].
  simpl in Hv. injection Hv as <-. exists p.
  split; [reflexivity|]. simpl. repeat split.
  - destruct (Snippets.choice p) as [[|o options]|]; discriminate.
  - intros options. destruct (Snippets.choice p) as [[|o os]|];
      try discriminate. now intros [= <-].
  - destruct (Snippets.choice p) as [[|o os]|]; try discriminate; auto.
Qed.

(** X3: in the list the constructor derives, [getPlaceholderById(k)] is
    the view at list position [k]; it misses exactly when [k] is negative
    or not below the number of views, and looking up a view's own id gives
    that view back. *)
Theorem getPlaceholderById_is_position (tm : T) (anchor : LSP.Position) :
  (forall k,
      CocSnippet.getPlaceholderById (CocSnippet.create tm anchor) k = None
      <-> k < 0 \/ Z.of_nat (List.length (Snippets.placeholders tm)) <= k)
  /\ (forall i,
         CocSnippet.getPlaceholderById (CocSnippet.create tm anchor) (Z.of_nat i)
         = nth_error (CocSnippet._placeholders (CocSnippet.create tm anchor)) i)
  /\ (forall v,
         In v (CocSnippet._placeholders (CocSnippet.create tm anchor)) ->
         CocSnippet.getPlaceholderById (CocSnippet.create tm anchor) (id v)
         = Some v).
Proof.
  set (s := CocSnippet.create tm anchor).
  assert (Hat : forall k, CocSnippet.getPlaceholderById s k
                          = JS.at_ (CocSnippet._placeholders s) k)
    by (intro k; apply derived_getPlaceholderById, create_derived).
  assert (Hnat : forall i, CocSnippet.getPlaceholderById s (Z.of_nat i)
                           = nth_error (CocSnippet._placeholders s) i).
  { intro i. rewrite Hat. unfold JS.at_.
    destruct (Z.ltb_spec (Z.of_nat i) 0); [lia|]. now rewrite Nat2Z.id. }
  split; [|split; [exact Hnat|]].
  - intro k. rewrite Hat. unfold JS.at_.
    destruct (Z.ltb_spec k 0) as [Hneg|Hpos].
    + split; [now left|reflexivity].
    + rewrite nth_error_None. unfold s. simpl.
      unfold CocSnippet.views. rewrite mapi_length. lia.
  - intros v Hv. apply In_nth_error in Hv as [i Hi].
    assert (Hid : id v = Z.of_nat i).
    { unfold s in Hi. simpl in Hi. rewrite views_nth_error in Hi.
      destruct (nth_error (Snippets.placeholders tm) i); [|discriminate].
      simpl in Hi. injection Hi as <-. reflexivity. }
    now rewrite Hid, Hnat.
Qed.

(** X4: [getPlaceholder(index)] returns the first view of the list that
    has the index and is not a transform, and when there is none the first
    view that has the index; it misses exactly when no view has the index,
    and it returns a transform only if every view of the index is one. *)
Theorem getPlaceholder_prefers_plain (s : CocSnippet.t T) (i : Z) :
  CocSnippet.getPlaceholder s i
  = match find (fun o => (index o =? i) && negb (transform o))
               (CocSnippet._placeholders s) with
    | Some v => Some v
    | None => find (fun o => index o =? i) (CocSnippet._placeholders s)
    end
  /\ (CocSnippet.getPlaceholder s i = None
      <-> forall v, In v (CocSnippet._placeholders s) -> index v <> i)
  /\ (forall v,
         CocSnippet.getPlaceholder s i = Some v ->
         In v (CocSnippet._placeholders s) /\ index v = i
         /\ (transform v = true ->
             forall w, In w (CocSnippet._placeholders s) ->
                       index w = i -> transform w = true)).
Proof.
  assert (Hchar : CocSnippet.getPlaceholder s i
                  = match find (fun o => (index o =? i) && negb (transform o))
                               (CocSnippet._placeholders s) with
                    | Some v => Some v
                    | None => find (fun o => index o =? i)
                                (CocSnippet._placeholders s)
                    end).
  { unfold CocSnippet.getPlaceholder.
    rewrite filter_filter.
    rewrite <- (hd_error_filter
                  (fun o => (index o =? i) && negb (transform o))).
    rewrite <- (hd_error_filter (fun o => index o =? i)).
    now destruct (filter (fun o => (index o =? i) && negb (transform o))
                         (CocSnippet._placeholders s)). }
  split; [exact Hchar|]. rewrite Hchar.
  destruct (find (fun o => (index o =? i) && negb (transform o))
                 (CocSnippet._placeholders s)) as [u|] eqn:Hplain.
  - apply find_some in Hplain as [Hin Hu].
    apply andb_prop in Hu as [Hidx Hnt]. apply Z.eqb_eq in Hidx.
    apply negb_true_iff in Hnt. split.
    + split; [discriminate|]. intro Hnone. now apply Hnone in Hin.
    + intros v [= <-]. split; [exact Hin|]. split; [exact Hidx|]. congruence.
  - split.
    + split.
      * intros Hnone v Hv Hidx.
        apply (find_none _ _ Hnone) in Hv. apply Z.eqb_neq in Hv. contradiction.
      * intro Hnone.
        destruct (find (fun o => index o =? i) (CocSnippet._placeholders s))
          as [v|] eqn:Hany; [|reflexivity].
        apply find_some in Hany as [Hin Hidx]. apply Z.eqb_eq in Hidx.
        now apply Hnone in Hin.
    + intros v Hany. apply find_some in Hany as [Hin Hidx].
      apply Z.eqb_eq in Hidx. split; [exact Hin|]. split; [exact Hidx|].
      intros _ w Hw Hwi.
      apply (find_none _ _ Hplain) in Hw.
      apply andb_false_iff in Hw as [Hw|Hw].
      * apply Z.eqb_neq in Hw. contradiction.
      * now apply negb_false_iff in Hw.
Qed.

(** X5: in the list the constructor derives, [finalPlaceholder] and
    [getPlaceholderByRange] return the first match in document order: the
    view they return has the flag (contains the range) and no view with a
    smaller id does; they miss exactly when no view matches. *)
Theorem first_match_in_document_order {PU : LSP.PositionUtil}
        (tm : T) (anchor : LSP.Position) :
  (forall v,
      CocSnippet.finalPlaceholder (CocSnippet.create tm anchor) = Some v ->
      In v (CocSnippet._placeholders (CocSnippet.create tm anchor))
      /\ isFinalTabstop v = true
      /\ forall w,
           In w (CocSnippet._placeholders (CocSnippet.create tm anchor)) ->
           isFinalTabstop w = true -> id v <= id w)
  /\ (CocSnippet.finalPlaceholder (CocSnippet.create tm anchor) = None
      <-> forall w,
            In w (CocSnippet._placeholders (CocSnippet.create tm anchor)) ->
            isFinalTabstop w = false)
  /\ (forall r v,
         CocSnippet.getPlaceholderByRange (CocSnippet.create tm anchor) r
         = Some v ->
         In v (CocSnippet._placeholders (CocSnippet.create tm anchor))
         /\ LSP.rangeInRange r (range v) = true
         /\ forall w,
              In w (CocSnippet._placeholders (CocSnippet.create tm anchor)) ->
              LSP.rangeInRange r (range w) = true -> id v <= id w)
  /\ (forall r,
         CocSnippet.getPlaceholderByRange (CocSnippet.create tm anchor) r = None
         <-> forall w,
               In w (CocSnippet._placeholders (CocSnippet.create tm anchor)) ->
               LSP.rangeInRange r (range w) = false).
Proof.
  assert (Hnone : forall (g : CocSnippetPlaceholder -> bool) l,
             find g l = None <-> forall w, In w l -> g w = false).
  { intros g l. split; [apply find_none|].
    intro Hall. destruct (find g l) as [v|] eqn:Hv; [|reflexivity].
    apply find_some in Hv as [Hin Hg]. apply Hall in Hin. congruence. }
  split; [|split; [|split]].
  - intros v Hv.
    apply (find_mapi_first (CocSnippet.view tm anchor) isFinalTabstop
             (fun _ _ => eq_refl) _ _ _ Hv).
  - apply Hnone.
  - intros r v Hv.
    apply (find_mapi_first (CocSnippet.view tm anchor)
             (fun o => LSP.rangeInRange r (range o))
             (fun _ _ => eq_refl) _ _ _ Hv).
  - intro r. apply Hnone.
Qed.

(** X6: the snippet the constructor builds is plain text exactly when
    every placeholder node of the tree is the final tabstop, in particular
    when the tree has no placeholder at all. *)
Theorem isPlainText_of_the_tree (tm : T) (anchor : LSP.Position) :
  CocSnippet.isPlainText (CocSnippet.create tm anchor)
  = forallb Snippets.isFinalTabstop (Snippets.placeholders tm)
  /\ (Snippets.placeholders tm = [] ->
      CocSnippet.isPlainText (CocSnippet.create tm anchor) = true).
Proof.
  assert (Heq : CocSnippet.isPlainText (CocSnippet.create tm anchor)
                = forallb Snippets.isFinalTabstop (Snippets.placeholders tm)).
  { unfold CocSnippet.isPlainText. simpl. unfold CocSnippet.views.
    generalize 0%nat.
    induction (Snippets.placeholders tm) as [|p rest IH]; intro k; simpl;
      [reflexivity|].
    now rewrite IH. }
  split; [exact Heq|]. intro Hnil. now rewrite Heq, Hnil.
Qed.

End Lookup.

Lemma view_copies_the_node_witness :
  nth_error
    (CocSnippet._placeholders (CocSnippet.create Examples.call Examples.origin))
    1
  = Some (CocSnippet.view Examples.call Examples.origin 1
            (Snippets.mkPlaceholder 2 false false None "baz"))
  /\ exists p,
       nth_error (Snippets.placeholders Examples.call) 1 = Some p
       /\ value (CocSnippet.view Examples.call Examples.origin 1
                   (Snippets.mkPlaceholder 2 false false None "baz"))
          = Snippets.text p.
Proof.
  assert (Hview :
            nth_error
              (CocSnippet._placeholders
                 (CocSnippet.create Examples.call Examples.origin)) 1
            = Some (CocSnippet.view Examples.call Examples.origin 1
                      (Snippets.mkPlaceholder 2 false false None "baz")))
    by reflexivity.
  split; [exact Hview|].
  destruct (view_copies_the_node Examples.call Examples.origin 1 _ Hview)
    as (p & Hp & _ & Hvalue & _).
  exists p. now split.
Defined.

(** ** Stepping over missing indices *)

Section Stepping.

Context {T : Type} {TM : Snippets.TextmateSnippet T}.

Lemma getPlaceholder_miss (s : CocSnippet.t T) (k : Z) :
  (forall v, In v (CocSnippet._placeholders s) -> index v <> k) ->
  CocSnippet.getPlaceholder s k = None.
Proof.
  intro Hnone. unfold CocSnippet.getPlaceholder.
  assert (Hempty : filter (fun o => index o =? k) (CocSnippet._placeholders s)
                   = []).
  { induction (CocSnippet._placeholders s) as [|x l IH]; simpl; [reflexivity|].
    destruct (Z.eqb_spec (index x) k) as [Heq|_].
    - exfalso. apply (Hnone x); [now left|exact Heq].
    - apply IH. intros v Hv. apply Hnone. now right. }
  now rewrite Hempty.
Qed.

(** X7: [getPrevPlaceholder(index)] skips the indices that have no
    occurrence: when [j] is the nearest index below [index], not below 0,
    that has one, it returns the view [getPlaceholder(j)] returns, within
    [index - j] calls. *)
Theorem getPrevPlaceholder_skips_gaps
        (s : CocSnippet.t T) (j : Z) (v : CocSnippetPlaceholder) :
  forall (fuel : nat) (i : Z),
    0 <= j < i ->
    CocSnippet.getPlaceholder s j = Some v ->
    (forall k, j < k < i -> CocSnippet.getPlaceholder s k = None) ->
    (Z.to_nat (i - j) <= fuel)%nat ->
    CocSnippet.getPrevPlaceholder fuel s i = Returned (Some v).
Proof.
  induction fuel as [|fuel IH]; intros i Hj Hv Hgap Hfuel; [lia|].
  simpl. destruct (Z.eqb_spec i 0); [lia|].
  destruct (Z.eq_dec (i - 1) j) as [->|Hne].
  - now rewrite Hv.
  - rewrite (Hgap (i - 1)) by lia.
    apply IH; [lia|exact Hv| |lia].
    intros k Hk. apply Hgap. lia.
Qed.

(** X8: [getNextPlaceholder(index)] skips the indices that have no
    occurrence: when [j] is the nearest index above [index], not above the
    tree's maximum index, that has one, it returns the view
    [getPlaceholder(j)] returns, within [j - index] calls. *)
Theorem getNextPlaceholder_skips_gaps
        (s : CocSnippet.t T) (j : Z) (v : CocSnippetPlaceholder) :
  forall (fuel : nat) (i : Z),
    i < j <= Snippets.maxIndexNumber (CocSnippet.tmSnippet s) ->
    CocSnippet.getPlaceholder s j = Some v ->
    (forall k, i < k < j -> CocSnippet.getPlaceholder s k = None) ->
    (Z.to_nat (j - i) <= fuel)%nat ->
    CocSnippet.getNextPlaceholder fuel s i = Returned (Some v).
Proof.
  induction fuel as [|fuel IH]; intros i Hj Hv Hgap Hfuel; [lia|].
  simpl.
  destruct (Z.eqb_spec i (Snippets.maxIndexNumber (CocSnippet.tmSnippet s)));
    [lia|].
  destruct (Z.eq_dec (i + 1) j) as [->|Hne].
  - now rewrite Hv.
  - rewrite (Hgap (i + 1)) by lia.
    apply IH; [lia|exact Hv| |lia].
    intros k Hk. apply Hgap. lia.
Qed.

(** X9: [getPrevPlaceholder] has no lower bound other than index 0: called
    with a negative index below which no view's index lies, it recurses
    without end and returns nothing, however many calls are allowed. *)
Theorem getPrevPlaceholder_below_zero (s : CocSnippet.t T) :
  forall (fuel : nat) (i : Z),
    i < 0 ->
    (forall v, In v (CocSnippet._placeholders s) -> i <= index v) ->
    CocSnippet.getPrevPlaceholder fuel s i = OutOfFuel.
Proof.
  induction fuel as [|fuel IH]; intros i Hneg Hlow; [reflexivity|].
  simpl. destruct (Z.eqb_spec i 0); [lia|].
  rewrite getPlaceholder_miss.
  - apply IH; [lia|]. intros v Hv. apply Hlow in Hv. lia.
  - intros v Hv. apply Hlow in Hv. lia.
Qed.

(** X10: [getNextPlaceholder] stops only at the tree's maximum index:
    called with an index above it, and no view's index above that, it
    recurses without end and returns nothing, however many calls are
    allowed. *)
Theorem getNextPlaceholder_above_max (s : CocSnippet.t T) :
  forall (fuel : nat) (i : Z),
    Snippets.maxIndexNumber (CocSnippet.tmSnippet s) < i ->
    (forall v, In v (CocSnippet._placeholders s) -> index v <= i) ->
    CocSnippet.getNextPlaceholder fuel s i = OutOfFuel.
Proof.
  induction fuel as [|fuel IH]; intros i Hmax Hhigh; [reflexivity|].
  simpl.
  destruct (Z.eqb_spec i (Snippets.maxIndexNumber (CocSnippet.tmSnippet s)));
    [lia|].
  rewrite getPlaceholder_miss.
  - apply IH; [lia|]. intros v Hv. apply Hhigh in Hv. lia.
  - intros v Hv. apply Hhigh in Hv. lia.
Qed.

End Stepping.

Lemma sparse_indices :
  forall v,
    In v (CocSnippet._placeholders (Examples.new Examples.sparse Examples.origin)) ->
    -1 <= index v <= 4.
Proof.
  intros v Hv. simpl in Hv.
  destruct Hv as [<-|[<-|[<-|[]]]]; simpl; lia.
Qed.

Lemma sparse_gap :
  forall k,
    1 < k < 3 ->
    CocSnippet.getPlaceholder (Examples.new Examples.sparse Examples.origin) k
    = None.
Proof. intros k Hk. assert (k = 2) as -> by lia. reflexivity. Qed.

Lemma getPrevPlaceholder_skips_gaps_witness :
  0 <= 1 < 3
  /\ CocSnippet.getPlaceholder (Examples.new Examples.sparse Examples.origin) 1
     = Examples.viewAt (Examples.new Examples.sparse Examples.origin) 0
  /\ (Z.to_nat (3 - 1) <= 2)%nat
  /\ CocSnippet.getPrevPlaceholder 2
       (Examples.new Examples.sparse Examples.origin) 3
     = Returned (Examples.viewAt (Examples.new Examples.sparse Examples.origin) 0).
Proof.
  split; [lia|]. split; [reflexivity|]. split; [simpl; lia|].
  apply (getPrevPlaceholder_skips_gaps
           (Examples.new Examples.sparse Examples.origin) 1).
  - lia.
  - reflexivity.
  - exact sparse_gap.
  - simpl. lia.
Defined.

Lemma getNextPlaceholder_skips_gaps_witness :
  1 < 3 <= Snippets.maxIndexNumber
             (CocSnippet.tmSnippet (Examples.new Examples.sparse Examples.origin))
  /\ CocSnippet.getPlaceholder (Examples.new Examples.sparse Examples.origin) 3
     = Examples.viewAt (Examples.new Examples.sparse Examples.origin) 1
  /\ (Z.to_nat (3 - 1) <= 2)%nat
  /\ CocSnippet.getNextPlaceholder 2
       (Examples.new Examples.sparse Examples.origin) 1
     = Returned (Examples.viewAt (Examples.new Examples.sparse Examples.origin) 1).
Proof.
  assert (Hj : 1 < 3 <= Snippets.maxIndexNumber
                 (CocSnippet.tmSnippet
                    (Examples.new Examples.sparse Examples.origin)))
    by (vm_compute; split; [reflexivity|discriminate]).
  split; [exact Hj|]. split; [reflexivity|]. split; [simpl; lia|].
  apply (getNextPlaceholder_skips_gaps
           (Examples.new Examples.sparse Examples.origin) 3).
  - exact Hj.
  - reflexivity.
  - exact sparse_gap.
  - simpl. lia.
Defined.

Lemma getPrevPlaceholder_below_zero_witness :
  -1 < 0
  /\ CocSnippet.getPrevPlaceholder 1000
       (Examples.new Examples.sparse Examples.origin) (-1)
     = OutOfFuel.
Proof.
  split; [lia|].
  apply (getPrevPlaceholder_below_zero
           (Examples.new Examples.sparse Examples.origin)).
  - lia.
  - intros v Hv. apply sparse_indices in Hv. lia.
Defined.

Lemma getNextPlaceholder_above_max_witness :
  Snippets.maxIndexNumber
    (CocSnippet.tmSnippet (Examples.new Examples.sparse Examples.origin)) < 4
  /\ CocSnippet.getNextPlaceholder 1000
       (Examples.new Examples.sparse Examples.origin) 4
     = OutOfFuel.
Proof.
  assert (Hmax : Snippets.maxIndexNumber
                   (CocSnippet.tmSnippet
                      (Examples.new Examples.sparse Examples.origin)) < 4)
    by (vm_compute; reflexivity).
  split; [exact Hmax|].
  apply (getNextPlaceholder_above_max
           (Examples.new Examples.sparse Examples.origin)).
  - exact Hmax.
  - intros v Hv. apply sparse_indices in Hv. lia.
Defined.

(** ** Shifts, and what each method leaves alone *)

Section Shifting.

Context {T : Type} {TM : Snippets.TextmateSnippet T}
        {Doc : LSP.TextDocument}.

(** X11: as long as the anchor, the anchor after the first call and the
    summed counts stay within 2^53 in magnitude, two calls of
    [adjustPosition] amount to one call with the summed counts, and a call
    with zero counts only re-derives the list. *)
Theorem adjustPosition_composes (s : CocSnippet.t T) (c1 l1 c2 l2 : Z) :
  safe_position (CocSnippet.position s) ->
  safe_position (moved (CocSnippet.position s) c1 l1) ->
  JS.safe (c1 + c2) ->
  JS.safe (l1 + l2) ->
  CocSnippet.adjustPosition (CocSnippet.adjustPosition s c1 l1) c2 l2
  = CocSnippet.adjustPosition s (c1 + c2) (l1 + l2)
  /\ CocSnippet.adjustPosition (CocSnippet.update s) 0 0 = CocSnippet.update s.
Proof.
  intros [Hl Hc] [Hl1 Hc1] _ _. simpl in Hl1, Hc1. split.
  - unfold CocSnippet.adjustPosition, CocSnippet.update. simpl.
    rewrite (add_safe _ _ Hl1), (add_safe _ _ Hc1).
    unfold JS.add. now rewrite <- !Z.add_assoc.
  - destruct s as [[l c] tm vs].
    unfold CocSnippet.adjustPosition, CocSnippet.update. simpl in *.
    rewrite !add_safe by (now rewrite Z.add_0_r).
    now rewrite !Z.add_0_r.
Qed.

(** X12: as long as the anchor, the moved anchor, the view's range and
    the moved range stay within 2^53 in magnitude,
    [adjustPosition(dChar, dLine)] moves the range of a view by [dLine]
    lines; it moves the characters of the range by [dChar] when the view
    lies on the first rendered line of the snippet and leaves them alone
    when it lies on a later line. *)
Theorem adjustPosition_shifts_views
        (tm : T) (anchor : LSP.Position) (dChar dLine : Z) (i : nat)
        (v : CocSnippetPlaceholder) :
  nth_error (CocSnippet._placeholders (CocSnippet.create tm anchor)) i = Some v ->
  safe_position anchor ->
  safe_position (moved anchor dChar dLine) ->
  safe_range (range v) ->
  safe_range (LSP.mkRange (moved (LSP.start (range v)) dChar dLine)
                          (moved (LSP.end_ (range v)) dChar dLine)) ->
  exists v',
    nth_error
      (CocSnippet._placeholders
         (CocSnippet.adjustPosition (CocSnippet.create tm anchor) dChar dLine)) i
    = Some v'
    /\ LSP.line (LSP.start (range v')) = LSP.line (LSP.start (range v)) + dLine
    /\ LSP.line (LSP.end_ (range v')) = LSP.line (LSP.end_ (range v)) + dLine
    /\ line v' = line v + dLine
    /\ (LSP.line (LSP.positionAt (Snippets.toString tm) (Snippets.offset tm i))
        = 0 ->
        LSP.character (LSP.start (range v'))
        = LSP.character (LSP.start (range v)) + dChar
        /\ LSP.character (LSP.end_ (range v'))
           = LSP.character (LSP.end_ (range v)) + dChar)
    /\ (LSP.line (LSP.positionAt (Snippets.toString tm) (Snippets.offset tm i))
        <> 0 ->
        LSP.character (LSP.start (range v'))
        = LSP.character (LSP.start (range v))
        /\ LSP.character (LSP.end_ (range v'))
           = LSP.character (LSP.end_ (range v))).
Proof.
  intros Hv _ [Hl Hc] _ _. simpl in Hl, Hc.
  simpl in Hv. rewrite views_nth_error in Hv.
  destruct (nth_error (Snippets.placeholders tm) i) as [p|] eqn:Hp;
    [|discriminate].
  simpl in Hv. injection Hv as <-.
  exists (CocSnippet.view tm
            (LSP.mkPosition (LSP.line anchor + dLine)
                            (LSP.character anchor + dChar)) i p).
  split.
  { simpl. rewrite (add_safe _ _ Hl), (add_safe _ _ Hc).
    rewrite views_nth_error, Hp. reflexivity. }
  unfold CocSnippet.view. simpl.
  destruct (Z.eqb_spec
              (LSP.line (LSP.positionAt (Snippets.toString tm)
                           (Snippets.offset tm i))) 0) as [Hfirst|Hlater].
  - repeat split; intros; lia.
  - repeat split; intros; lia.
Qed.

(** X13: the snippet's own range starts at the anchor, and as long as
    its ends and its moved ends stay within 2^53 in magnitude,
    [adjustPosition] moves both of its ends by the two counts, the end's
    character too on whichever line the snippet ends. *)
Theorem range_moves_with_the_anchor (s : CocSnippet.t T) (dChar dLine : Z) :
  safe_range (CocSnippet.range_ s) ->
  safe_range (LSP.mkRange (moved (LSP.start (CocSnippet.range_ s)) dChar dLine)
                          (moved (LSP.end_ (CocSnippet.range_ s)) dChar dLine)) ->
  LSP.start (CocSnippet.range_ s) = CocSnippet.position s
  /\ LSP.start (CocSnippet.range_ (CocSnippet.adjustPosition s dChar dLine))
     = moved (LSP.start (CocSnippet.range_ s)) dChar dLine
  /\ LSP.end_ (CocSnippet.range_ (CocSnippet.adjustPosition s dChar dLine))
     = moved (LSP.end_ (CocSnippet.range_ s)) dChar dLine.
Proof.
  intros _ [[Hl Hc] _]. simpl in Hl, Hc.
  split; [reflexivity|].
  unfold CocSnippet.range_, CocSnippet.adjustPosition, CocSnippet.toString, moved.
  simpl. rewrite (add_safe _ _ Hl), (add_safe _ _ Hc).
  split; [reflexivity|]. f_equal; lia.
Qed.

(** X14: a targeted edit, a nested insertion and [setPlaceholderValue]
    never move the anchor, and [adjustTextEdit] never changes the tree,
    hence not the rendered text. *)
Theorem methods_leave_anchor_or_tree
        {PU : LSP.PositionUtil} {NI : Snippets.NestedInsertion T}
        (s : CocSnippet.t T) :
  (forall p edit,
      CocSnippet.position (fst (CocSnippet.updatePlaceholder s p edit))
      = CocSnippet.position s)
  /\ (forall p snippet at_position,
         CocSnippet.position
           (fst (CocSnippet.insertSnippet s p snippet at_position))
         = CocSnippet.position s)
  /\ (forall k val,
         CocSnippet.position (CocSnippet.setPlaceholderValue s k val)
         = CocSnippet.position s)
  /\ (forall edit,
         CocSnippet.tmSnippet (fst (CocSnippet.adjustTextEdit s edit))
         = CocSnippet.tmSnippet s
         /\ CocSnippet.toString (fst (CocSnippet.adjustTextEdit s edit))
            = CocSnippet.toString s).
Proof.
  split; [|split; [|split]].
  - intros p edit. now rewrite updatePlaceholder_create.
  - intros p snippet at_position. now rewrite insertSnippet_create.
  - intros k val. now rewrite setPlaceholderValue_create.
  - intro edit. destruct (adjustTextEdit_cases s edit) as [H|H];
      rewrite H; split; reflexivity.
Qed.

End Shifting.

Lemma small_is_safe (z : Z) : Z.abs z <= 1000 -> JS.safe z.
Proof. unfold JS.safe, JS.maxExact. lia. Qed.

Lemma adjustPosition_composes_witness :
  safe_position (CocSnippet.position (Examples.new Examples.call (LSP.mkPosition 3 2)))
  /\ safe_position
       (moved (CocSnippet.position (Examples.new Examples.call (LSP.mkPosition 3 2)))
          4 1)
  /\ JS.safe (4 + 5) /\ JS.safe (1 + -2)
  /\ CocSnippet.adjustPosition
       (CocSnippet.adjustPosition
          (Examples.new Examples.call (LSP.mkPosition 3 2)) 4 1) 5 (-2)
     = Examples.new Examples.call (LSP.mkPosition 2 11).
Proof.
  assert (H0 : safe_position
                 (CocSnippet.position
                    (Examples.new Examples.call (LSP.mkPosition 3 2))))
    by (split; apply small_is_safe; simpl; lia).
  assert (H1 : safe_position
                 (moved (CocSnippet.position
                           (Examples.new Examples.call (LSP.mkPosition 3 2)))
                    4 1))
    by (split; apply small_is_safe; simpl; lia).
  assert (H2 : JS.safe (4 + 5)) by (apply small_is_safe; simpl; lia).
  assert (H3 : JS.safe (1 + -2)) by (apply small_is_safe; simpl; lia).
  split; [exact H0|]. split; [exact H1|]. split; [exact H2|]. split; [exact H3|].
  rewrite (proj1 (adjustPosition_composes
                    (Examples.new Examples.call (LSP.mkPosition 3 2))
                    4 1 5 (-2) H0 H1 H2 H3)).
  reflexivity.
Defined.

Lemma adjustPosition_shifts_views_witness :
  nth_error
    (CocSnippet._placeholders
       (CocSnippet.create Examples.block (LSP.mkPosition 3 2))) 1
  = Some (CocSnippet.view Examples.block (LSP.mkPosition 3 2) 1
            (Snippets.mkPlaceholder 2 false false None "body"))
  /\ exists v',
       nth_error
         (CocSnippet._placeholders
            (CocSnippet.adjustPosition
               (CocSnippet.create Examples.block (LSP.mkPosition 3 2)) 5 1)) 1
       = Some v'
       /\ LSP.line (LSP.start (range v')) = 5
       /\ LSP.character (LSP.start (range v')) = 2.
Proof.
  assert (Hview :
            nth_error
              (CocSnippet._placeholders
                 (CocSnippet.create Examples.block (LSP.mkPosition 3 2))) 1
            = Some (CocSnippet.view Examples.block (LSP.mkPosition 3 2) 1
                      (Snippets.mkPlaceholder 2 false false None "body")))
    by reflexivity.
  split; [exact Hview|].
  destruct (adjustPosition_shifts_views Examples.block (LSP.mkPosition 3 2)
              5 1 1 _ Hview) as (v' & Hv' & Hline & _ & _ & _ & Hlater).
  - split; apply small_is_safe; simpl; lia.
  - split; apply small_is_safe; simpl; lia.
  - repeat split; apply small_is_safe; vm_compute; discriminate.
  - repeat split; apply small_is_safe; vm_compute; discriminate.
  - exists v'. split; [exact Hv'|]. split.
    + rewrite Hline. reflexivity.
    + destruct Hlater as [Hchar _]; [vm_compute; discriminate|].
      rewrite Hchar. reflexivity.
Defined.

Lemma range_moves_with_the_anchor_witness :
  safe_range (CocSnippet.range_ (Examples.new Examples.block (LSP.mkPosition 3 2)))
  /\ CocSnippet.range_
       (CocSnippet.adjustPosition
          (Examples.new Examples.block (LSP.mkPosition 3 2)) 5 1)
     = LSP.mkRange (LSP.mkPosition 4 7) (LSP.mkPosition 5 13).
Proof.
  assert (H0 : safe_range
                 (CocSnippet.range_
                    (Examples.new Examples.block (LSP.mkPosition 3 2))))
    by (repeat split; apply small_is_safe; vm_compute; discriminate).
  split; [exact H0|].
  destruct (range_moves_with_the_anchor
              (Examples.new Examples.block (LSP.mkPosition 3 2)) 5 1 H0)
    as (_ & Hstart & Hend).
  - repeat split; apply small_is_safe; vm_compute; discriminate.
  - destruct (CocSnippet.range_
                (CocSnippet.adjustPosition
                   (Examples.new Examples.block (LSP.mkPosition 3 2)) 5 1))
      as [st en].
    simpl in Hstart, Hend. rewrite Hstart, Hend. reflexivity.
Defined.

(** ** The text a targeted edit writes *)

Lemma append_length (a b : string) :
  String.length (a ++ b) = (String.length a + String.length b)%nat.
Proof. induction a as [|x a IH]; simpl; [reflexivity|now rewrite IH]. Qed.

Lemma substring_length (s : string) :
  forall n m,
    (n + m <= String.length s)%nat -> String.length (substring n m s) = m.
Proof.
  induction s as [|c s IH]; intros [|n] [|m] Hle; simpl in *;
    try reflexivity; try lia.
  - now rewrite IH by lia.
  - apply IH. lia.
  - apply IH. lia.
Qed.

Lemma substring_rest (s : string) :
  forall b,
    (b <= String.length s)%nat ->
    (substring 0 b s ++ substring b (String.length s - b) s)%string = s.
Proof.
  induction s as [|c s IH]; intros [|b] Hle; simpl in *;
    try reflexivity; try lia.
  - f_equal. pose proof (IH 0%nat (Nat.le_0_l _)) as H0.
    rewrite substring_none, Nat.sub_0_r in H0. exact H0.
  - f_equal. apply IH. lia.
Qed.

Lemma splice_same (s : string) :
  forall a b,
    (a <= b <= String.length s)%nat ->
    (substring 0 a s ++ substring a (b - a) s
     ++ substring b (String.length s - b) s)%string = s.
Proof.
  induction s as [|c s IH]; intros a b Hab.
  - simpl in Hab. assert (a = 0%nat) as -> by lia.
    assert (b = 0%nat) as -> by lia. reflexivity.
  - destruct a as [|a].
    + rewrite substring_none, Nat.sub_0_r.
      change (EmptyString ++ substring 0 b (String c s)
              ++ substring b (String.length (String c s) - b) (String c s))%string
        with (substring 0 b (String c s)
              ++ substring b (String.length (String c s) - b) (String c s))%string.
      apply substring_rest. lia.
    + destruct b as [|b]; [lia|]. simpl in *. f_equal. apply IH. lia.
Qed.

Section WrittenText.

Context {T : Type} {TM : Snippets.TextmateSnippet T}
        {Doc : LSP.TextDocument}.

Lemma derived_view_width (tm : T) (anchor : LSP.Position) (i : nat)
      (p : CocSnippetPlaceholder) :
  nth_error (CocSnippet._placeholders (CocSnippet.create tm anchor)) i = Some p ->
  LSP.character (LSP.end_ (range p))
  = LSP.character (LSP.start (range p)) + Z.of_nat (String.length (value p)).
Proof.
  intro Hp. simpl in Hp. rewrite views_nth_error in Hp.
  destruct (nth_error (Snippets.placeholders tm) i); [|discriminate].
  simpl in Hp. injection Hp as <-. reflexivity.
Qed.



(** X17: nothing checks that the edit starts inside the placeholder.  When
    it starts [k] characters before the placeholder's start, and ends at
    or after its end, the written text is the first [length - k]
    characters of the value, none when [k] exceeds the length, followed
    by the edit's text: characters the edit covers are kept. *)
Theorem editedText_start_before
        (p : CocSnippetPlaceholder) (edit : LSP.TextEdit) :
  LSP.character (LSP.start (LSP.range edit))
  < LSP.character (LSP.start (range p)) ->
  LSP.character (LSP.end_ (LSP.range edit))
  >= LSP.character (LSP.end_ (range p)) ->
  CocSnippet.editedText p edit
  = (substring 0
       (Z.to_nat (Z.of_nat (String.length (value p))
                  - (LSP.character (LSP.start (range p))
                     - LSP.character (LSP.start (LSP.range edit)))))
       (value p)
     ++ LSP.newText edit)%string.
Proof.
  intros Hstart Hend. unfold CocSnippet.editedText.
  destruct (Z.gtb_spec (LSP.character (LSP.end_ (range p)))
                       (LSP.character (LSP.end_ (LSP.range edit)))); [lia|].
  rewrite append_empty. f_equal.
  unfold JS.slice, JS.relative.
  destruct (Z.ltb_spec 0 0); [lia|].
  destruct (Z.ltb_spec (LSP.character (LSP.start (LSP.range edit))
                        - LSP.character (LSP.start (range p))) 0); [|lia].
  f_equal; lia.
Qed.

(** X18: every synthetic edit [updatePlaceholder] returns belongs to
    another occurrence of the edited index in the re-derived list, carries
    that occurrence's range, and its text differs from the occurrence's
    value: no edit is returned for the edited occurrence itself, and none
    that would change nothing. *)
Theorem synthetic_edits_change_text
        (s : CocSnippet.t T) (p : CocSnippetPlaceholder) (edit : LSP.TextEdit)
        (e : LSP.TextEdit) :
  In e (snd (CocSnippet.updatePlaceholder s p edit)) ->
  exists o,
    In o (CocSnippet._placeholders
            (CocSnippet.setPlaceholderValue s (id p)
               (CocSnippet.editedText p edit)))
    /\ index o = index p /\ id o <> id p
    /\ LSP.range e = range o
    /\ LSP.newText e <> value o.
Proof.
  rewrite updatePlaceholder_create. unfold applyText. simpl.
  rewrite forEachOther_recomputed. simpl.
  intro He. apply in_flat_map in He as ([o text] & Hin & He).
  apply in_combine_l in Hin. unfold others in Hin.
  apply filter_In in Hin as [Hin Hsel].
  apply andb_prop in Hsel as [Hidx Hid].
  apply Z.eqb_eq in Hidx. apply negb_true_iff, Z.eqb_neq in Hid.
  exists o. unfold synthetic in He.
  destruct (String.eqb_spec text (value o)) as [|Hne]; [contradiction|].
  destruct He as [<-|[]]. simpl. repeat split; assumption.
Qed.

End WrittenText.



(** [bar] at (0,4)-(0,7), replaced from (0,3) to (0,9) by [X]: the edit
    covers the whole placeholder, yet [ba] is kept. *)
Lemma editedText_start_before_witness :
  3 < 4 /\ 9 >= 7
  /\ CocSnippet.editedText
       (CocSnippet.view Examples.call Examples.origin 0
          (Snippets.mkPlaceholder 1 false false None "bar"))
       (LSP.mkTextEdit (LSP.mkRange (LSP.mkPosition 0 3) (LSP.mkPosition 0 9))
          "X")
     = "baX"%string.
Proof.
  split; [lia|]. split; [lia|].
  rewrite (editedText_start_before
             (CocSnippet.view Examples.call Examples.origin 0
                (Snippets.mkPlaceholder 1 false false None "bar"))
             (LSP.mkTextEdit
                (LSP.mkRange (LSP.mkPosition 0 3) (LSP.mkPosition 0 9)) "X")).
  - reflexivity.
  - vm_compute. reflexivity.
  - vm_compute. discriminate.
Defined.

Lemma synthetic_edits_change_text_witness :
  In (LSP.mkTextEdit (LSP.mkRange (LSP.mkPosition 0 6) (LSP.mkPosition 0 6))
        "[X]")
     (snd (CocSnippet.updatePlaceholder
             (Examples.new Examples.mirrored Examples.origin)
             (CocSnippet.view Examples.mirrored Examples.origin 0
                (Snippets.mkPlaceholder 1 false false None EmptyString))
             (LSP.mkTextEdit
                (LSP.mkRange (LSP.mkPosition 0 0) (LSP.mkPosition 0 0)) "X")))
  /\ exists o,
       index o = 1 /\ id o <> 0
       /\ range o = LSP.mkRange (LSP.mkPosition 0 6) (LSP.mkPosition 0 6)
       /\ value o <> "[X]"%string.
Proof.
  assert (Hin :
            In (LSP.mkTextEdit
                  (LSP.mkRange (LSP.mkPosition 0 6) (LSP.mkPosition 0 6)) "[X]")
               (snd (CocSnippet.updatePlaceholder
                       (Examples.new Examples.mirrored Examples.origin)
                       (CocSnippet.view Examples.mirrored Examples.origin 0
                          (Snippets.mkPlaceholder 1 false false None
                             EmptyString))
                       (LSP.mkTextEdit
                          (LSP.mkRange (LSP.mkPosition 0 0) (LSP.mkPosition 0 0))
                          "X"))))
    by (left; reflexivity).
  split; [exact Hin|].
  destruct (synthetic_edits_change_text _ _ _ _ Hin)
    as (o & _ & Hidx & Hid & Hrange & Hnew).
  exists o. simpl in *. repeat split; congruence.
Defined.
